(** * Prayer-time backend: strategy resolution, Hijri calendar
    synchronisation and calendar persistence

    A shallow embedding of the NestJS services [PrayerService],
    [CityPrayerTimeByAthanStrategy], [CoordinatesPrayerTimeByAthanStrategy],
    [AthanService], [HijriService] and [DbService], followed by the
    properties of the specification that concern them.

    The services are written in TypeScript over values typed [any]; the
    embedding therefore starts with a small model of JavaScript values,
    strings and [JSON.stringify], exactly as far as the services use them. *)

From Stdlib Require Import ZArith Ascii String List Lia.
From Stdlib Require QArith_base.
From stdpp Require Import base option list list_monad gmap strings pretty.

Set Warnings "-register-all".

Local Open Scope Z_scope.

(* ================================================================== *)
(** * JavaScript values *)
(* ================================================================== *)

Module Js.

(** A JavaScript number.  Finite numbers are carried by a rational; the
    two infinities and NaN are kept apart because [typeof] calls all of
    them ['number'] while comparisons tell them apart. *)
Inductive number :=
| NaN
| PosInfinity
| NegInfinity
| Finite (q : QArith_base.Q).

Definition of_Z (z : Z) : number := Finite (QArith_base.inject_Z z).

(** [x > 0] on numbers: false on NaN. *)
Definition gt0 (n : number) : bool :=
  match n with
  | NaN | NegInfinity => false
  | PosInfinity => true
  | Finite q => 0 <? QArith_base.Qnum q
  end.

(** Values as [JSON.parse] and object literals build them.  An object is
    the list of its own properties in enumeration order. *)
Inductive value :=
| VUndefined
| VNull
| VBool (b : bool)
| VNum (n : number)
| VStr (s : string)
| VArr (elems : list value)
| VObj (props : list (string * value)).

Abbreviation object := (list (string * value)).

Inductive type_tag := TUndefined | TObject | TBoolean | TNumber | TString.

(** The [typeof] operator ([typeof null] is ['object']). *)
Definition typeof (v : value) : type_tag :=
  match v with
  | VUndefined => TUndefined
  | VNull | VArr _ | VObj _ => TObject
  | VBool _ => TBoolean
  | VNum _ => TNumber
  | VStr _ => TString
  end.

Definition is_number (v : value) : bool :=
  match typeof v with TNumber => true | _ => false end.

(** [v > 0] is only ever evaluated by the services behind a
    [typeof v === 'number'] test. *)
Definition number_gt0 (v : value) : bool :=
  match v with VNum n => gt0 n | _ => false end.

(** [o[k]] on an object: the property, or [undefined]. *)
Fixpoint get (k : string) (o : object) : value :=
  match o with
  | [] => VUndefined
  | (k', v) :: o' => if String.eqb k k' then v else get k o'
  end.

(** [o[k] = v]: overwrite in place, or add the property last. *)
Fixpoint assign (k : string) (v : value) (o : object) : object :=
  match o with
  | [] => [(k, v)]
  | (k', v') :: o' =>
      if String.eqb k k' then (k, v) :: o' else (k', v') :: assign k v o'
  end.

(** Errors raised by the services and by the runtime.  The services throw
    [Error] objects told apart by their message; they are named as in the
    error taxonomy: [NoStrategyFound] is the error of [getPrayerTimes]
    (Invalid parameters for fetching prayer times...), [UnknownStrategy]
    and [ParametersNotValid] are the two errors of [executeStrategyByName]
    (Strategy ... not found; Parameters are not valid for the ... strategy),
    [StorageUnavailable] is Database service not ready.  A rejected HTTP
    call is [UpstreamCallFailed], a rejected statement
    [PersistenceWriteFailed]. *)
Inductive error :=
| TypeError
| NoStrategyFound
| UnknownStrategy
| ParametersNotValid
| StorageUnavailable
| UpstreamCallFailed
| PersistenceWriteFailed.

Inductive result (A : Type) :=
| Ok (a : A)
| Throw (e : error).
Arguments Ok {A} a.
Arguments Throw {A} e.

(** [v.k] for the property names the services read ([date], [gregorian],
    [hijri], [timings], [Fajr], ...): reading a property of [undefined] or
    [null] throws; arrays and primitives have no own property of these
    names. *)
Definition getProp (v : value) (k : string) : result value :=
  match v with
  | VUndefined | VNull => Throw TypeError
  | VObj o => Ok (get k o)
  | _ => Ok VUndefined
  end.

#[global] Instance result_ret : MRet result := fun _ a => Ok a.
#[global] Instance result_bind : MBind result := fun _ _ f r =>
  match r with
  | Ok a => f a
  | Throw e => Throw e
  end.

(** Calling a string method ([split]) on anything but a string throws. *)
Definition as_string (v : value) : result string :=
  match v with
  | VStr s => Ok s
  | _ => Throw TypeError
  end.

(** ** Strings

    A string is a sequence of code units; the model keeps the code units
    0..255. *)

Definition code (c : ascii) : Z := Z.of_N (N_of_ascii c).

Definition length (s : string) : Z := Z.of_nat (String.length s).

(** [s.split(sep)] for a one-character separator. *)
Fixpoint split (sep : ascii) (s : string) : list string :=
  match s with
  | EmptyString => [EmptyString]
  | String c s' =>
      if Ascii.eqb c sep then EmptyString :: split sep s'
      else match split sep s' with
           | [] => [String c EmptyString]
           | p :: ps => String c p :: ps
           end
  end.

(** [c] occurs in [s]. *)
Fixpoint occurs (c : ascii) (s : string) : bool :=
  match s with
  | EmptyString => false
  | String a s' => Ascii.eqb a c || occurs c s'
  end.

(** [a.join(sep)]: [undefined] elements are rendered as the empty string. *)
Fixpoint join (sep : string) (a : list (option string)) : string :=
  match a with
  | [] => ""
  | x :: rest =>
      match rest with
      | [] => default "" x
      | _ :: _ => default "" x +:+ sep +:+ join sep rest
      end
  end.

(** A template literal renders [undefined] as the word. *)
Definition interpolate (x : option string) : string := default "undefined" x.

(** [s.toLowerCase()] on the code units 0..255: the letters A-Z and the
    Latin-1 capitals (all of 0xC0..0xDE but the multiplication sign). *)
Definition lower_char (c : ascii) : ascii :=
  let n := code c in
  if ((65 <=? n) && (n <=? 90)) || ((192 <=? n) && (n <=? 222) && negb (n =? 215))
  then ascii_of_N (Z.to_N (n + 32))
  else c.

Fixpoint toLowerCase (s : string) : string :=
  match s with
  | EmptyString => EmptyString
  | String c s' => String (lower_char c) (toLowerCase s')
  end.

(** [s.indexOf(pat)]: the first position at which [pat] occurs, or -1. *)
Fixpoint indexOf_from (i : Z) (s pat : string) : Z :=
  if String.prefix pat s then i
  else match s with
       | EmptyString => -1
       | String _ s' => indexOf_from (i + 1) s' pat
       end.

Definition indexOf (s pat : string) : Z := indexOf_from 0 s pat.

(** [s.charAt(i)]: a one-character string, or the empty string when [i] is
    out of range. *)
Definition charAt (s : string) (i : Z) : string :=
  if i <? 0 then ""
  else match String.get (Z.to_nat i) s with
       | Some c => String c EmptyString
       | None => ""
       end.

(** ** parseInt(string), radix omitted *)

Definition is_white_space (c : ascii) : bool :=
  let n := code c in
  ((9 <=? n) && (n <=? 13)) || (n =? 32) || (n =? 160).

Fixpoint trim_start (s : string) : string :=
  match s with
  | EmptyString => EmptyString
  | String c s' => if is_white_space c then trim_start s' else s
  end.

Definition digit_value (c : ascii) : option Z :=
  let n := code c in
  if (48 <=? n) && (n <=? 57) then Some (n - 48)
  else if (97 <=? n) && (n <=? 122) then Some (n - 87)
  else if (65 <=? n) && (n <=? 90) then Some (n - 55)
  else None.

(** The longest prefix of radix-[R] digits, as an integer; [None] when the
    prefix is empty. *)
Fixpoint digits (R : Z) (s : string) (acc : option Z) : option Z :=
  match s with
  | EmptyString => acc
  | String c s' =>
      match digit_value c with
      | Some d => if d <? R then digits R s' (Some (default 0 acc * R + d)) else acc
      | None => acc
      end
  end.

Definition strip_sign (s : string) : Z * string :=
  match s with
  | String "-" r => (-1, r)
  | String "+" r => (1, r)
  | _ => (1, s)
  end.

Definition strip_radix (s : string) : Z * string :=
  match s with
  | String "0" (String "x" r) | String "0" (String "X" r) => (16, r)
  | _ => (10, s)
  end.

(** The Number value for an integer: the integer itself up to 2^53 in
    magnitude, and beyond that the nearest integer with a significand of
    53 bits, the even one of two that are as near; an integer that rounds
    to 2^1024 in magnitude or beyond is an infinity.  -0 is 0.  The
    runtime reads every digit of the text: it does not use the licence to
    take the digits after the twentieth for zeros. *)
Definition round_to_53_bits (m : Z) : Z :=
  let e := Z.log2 m - 52 in
  if e <=? 0 then m
  else
    let q := Z.shiftr m e in
    let r := m - Z.shiftl q e in
    let half := Z.shiftl 1 (e - 1) in
    Z.shiftl (if (half <? r) || ((r =? half) && Z.odd q) then q + 1 else q) e.

Definition to_double (n : Z) : number :=
  let m := round_to_53_bits (Z.abs n) in
  if 2 ^ 1024 <=? m then (if n <? 0 then NegInfinity else PosInfinity)
  else of_Z (Z.sgn n * m).

Definition parseInt (input : string) : number :=
  let '(sign, s) := strip_sign (trim_start input) in
  let '(R, s) := strip_radix s in
  match digits R s None with
  | None => NaN
  | Some n => to_double (sign * n)
  end.

(** [a.slice(start, end)] *)
Definition slice {A} (a : list A) (start end_ : Z) : list A :=
  let len := Z.of_nat (List.length a) in
  let k := if start <? 0 then Z.max (len + start) 0 else Z.min start len in
  let final := if end_ <? 0 then Z.max (len + end_) 0 else Z.min end_ len in
  take (Z.to_nat (final - k)) (drop (Z.to_nat k) a).

(** [a[i]]: the element, or [undefined] out of range. *)
Definition index (a : list value) (i : Z) : value :=
  if i <? 0 then VUndefined else default VUndefined (a !! Z.to_nat i).

(** [k in o]: [o] has an own property [k]. *)
Definition has_own (k : string) (o : object) : bool :=
  existsb (String.eqb k) o.*1.

(** The string a template literal, or [encodeURIComponent], makes of a
    value.  An array is the join of its elements, the empty string
    standing for [undefined] and [null]; an object is [[object Object]],
    unless it has an own [toString], which as a value read from JSON
    cannot be called. *)
Fixpoint to_string (number_to_string : QArith_base.Q → string) (v : value) : result string :=
  let fix elements (a : list value) : result (list (option string)) :=
    match a with
    | [] => Ok []
    | x :: a' =>
        match x with
        | VUndefined | VNull => rest ← elements a'; Ok (None :: rest)
        | _ => s ← to_string number_to_string x; rest ← elements a'; Ok (Some s :: rest)
        end
    end in
  match v with
  | VUndefined => Ok "undefined"
  | VNull => Ok "null"
  | VBool true => Ok "true"
  | VBool false => Ok "false"
  | VNum NaN => Ok "NaN"
  | VNum PosInfinity => Ok "Infinity"
  | VNum NegInfinity => Ok "-Infinity"
  | VNum (Finite q) => Ok (number_to_string q)
  | VStr s => Ok s
  | VArr a => parts ← elements a; Ok (join "," parts)
  | VObj o => if has_own "toString" o then Throw TypeError else Ok "[object Object]"
  end.

End Js.

Import Js.

(* ================================================================== *)
(** * JSON.stringify *)
(* ================================================================== *)

Module JSON.

Definition dquote : ascii := "034"%char.
Definition backslash : ascii := "092"%char.

Definition hex_digit (n : Z) : ascii :=
  if n <? 10 then ascii_of_N (Z.to_N (48 + n)) else ascii_of_N (Z.to_N (87 + n)).

Definition escape (c : ascii) : string := String backslash (String c EmptyString).

(** One code unit of a quoted string: the two-character escapes, a
    [\u00XX] escape for the other control characters, the unit itself
    otherwise. *)
Definition quote_char (c : ascii) : string :=
  let n := code c in
  if n =? 8 then escape "b"
  else if n =? 9 then escape "t"
  else if n =? 10 then escape "n"
  else if n =? 12 then escape "f"
  else if n =? 13 then escape "r"
  else if n =? 34 then escape dquote
  else if n =? 92 then escape backslash
  else if n <? 32 then
    String backslash
      (String "u" (String "0" (String "0"
         (String (hex_digit (n / 16)) (String (hex_digit (n mod 16)) EmptyString)))))
  else String c EmptyString.

Fixpoint quote_body (s : string) : string :=
  match s with
  | EmptyString => EmptyString
  | String c s' => quote_char c +:+ quote_body s'
  end.

(** QuoteJSONString *)
Definition quote (s : string) : string :=
  String dquote (quote_body s +:+ String dquote EmptyString).

Section Stringify.

(** Number::toString of the runtime, for finite numbers. *)
Variable number_to_string : QArith_base.Q -> string.

(** [JSON.stringify(v)] without replacer or indentation; [None] is the
    result [undefined].  A property whose value has no rendering is left
    out of an object and rendered as [null] in an array; a number that is
    not finite is rendered as [null]. *)
Fixpoint stringify (v : value) : option string :=
  let fix elements (a : list value) : list (option string) :=
    match a with
    | [] => []
    | x :: a' => Some (default "null" (stringify x)) :: elements a'
    end in
  let fix members (o : object) : list (option string) :=
    match o with
    | [] => []
    | (k, x) :: o' =>
        match stringify x with
        | Some r => Some (quote k +:+ ":" +:+ r) :: members o'
        | None => members o'
        end
    end in
  match v with
  | VUndefined => None
  | VNull => Some "null"
  | VBool true => Some "true"
  | VBool false => Some "false"
  | VNum (Finite q) => Some (number_to_string q)
  | VNum _ => Some "null"
  | VStr s => Some (quote s)
  | VArr a => Some ("[" +:+ join "," (elements a) +:+ "]")
  | VObj o => Some ("{" +:+ join "," (members o) +:+ "}")
  end.

End Stringify.

(** ** Reading back an object of strings

    The services never parse what they stringify.  This reader of the
    texts [{"k":"v",...}] is what a consumer of the stored column would
    run; it accepts the JSON grammar of string literals. *)

Definition hex_value (c : ascii) : option Z :=
  match digit_value c with
  | Some d => if d <? 16 then Some d else None
  | None => None
  end.

Definition unescape (c : ascii) : option ascii :=
  if Ascii.eqb c "b" then Some "008"%char
  else if Ascii.eqb c "t" then Some "009"%char
  else if Ascii.eqb c "n" then Some "010"%char
  else if Ascii.eqb c "f" then Some "012"%char
  else if Ascii.eqb c "r" then Some "013"%char
  else if Ascii.eqb c dquote then Some dquote
  else if Ascii.eqb c backslash then Some backslash
  else if Ascii.eqb c "/" then Some "/"%char
  else None.

(** The code unit a [\uXXXX] escape stands for, when it is below 256. *)
Definition unicode_escape (h1 h2 h3 h4 : ascii) : option ascii :=
  a ← hex_value h1; b ← hex_value h2; c ← hex_value h3; d ← hex_value h4;
  let n := ((a * 16 + b) * 16 + c) * 16 + d in
  if n <? 256 then Some (ascii_of_N (Z.to_N n)) else None.

Definition cons_char (c : ascii) (r : string * string) : string * string :=
  (String c r.1, r.2).

(** Reads a string literal past its opening quote: the string it denotes
    and the text after its closing quote. *)
Fixpoint unquote_body (s : string) : option (string * string) :=
  match s with
  | EmptyString => None
  | String c rest =>
      if Ascii.eqb c dquote then Some (EmptyString, rest)
      else if Ascii.eqb c backslash then
        match rest with
        | EmptyString => None
        | String e rest1 =>
            if Ascii.eqb e "u" then
              match rest1 with
              | String h1 (String h2 (String h3 (String h4 rest2))) =>
                  match unicode_escape h1 h2 h3 h4 with
                  | Some c' => cons_char c' <$> unquote_body rest2
                  | None => None
                  end
              | _ => None
              end
            else
              match unescape e with
              | Some c' => cons_char c' <$> unquote_body rest1
              | None => None
              end
        end
      else if code c <? 32 then None
      else cons_char c <$> unquote_body rest
  end.

Definition unquote (s : string) : option (string * string) :=
  match s with
  | String c rest => if Ascii.eqb c dquote then unquote_body rest else None
  | EmptyString => None
  end.

(** The members [k:v,k:v,...] up to the closing brace, which ends the
    text. *)
Fixpoint parse_members (fuel : nat) (s : string) : option (list (string * string)) :=
  match fuel with
  | O => None
  | S fuel' =>
      '(k, r1) ← unquote s;
      match r1 with
      | String ":" r2 =>
          '(v, r3) ← unquote r2;
          match r3 with
          | String "}" EmptyString => Some [(k, v)]
          | String "," r4 => cons (k, v) <$> parse_members fuel' r4
          | _ => None
          end
      | _ => None
      end
  end.

Definition parse_string_object (s : string) : option (list (string * string)) :=
  match s with
  | String "{" (String "}" EmptyString) => Some []
  | String "{" r => parse_members (String.length r) r
  | _ => None
  end.

End JSON.

(* ================================================================== *)
(** * The world around the services *)
(* ================================================================== *)

(** The upstream requests the services issue.  A request is kept by its
    endpoint and by what is interpolated into its URL: the text each
    value is rendered as, before [encodeURIComponent] where the service
    applies it, and the two numbers of the month. *)
Inductive Url :=
| Calendar (latitude longitude method : string) (month year : Z)
| CalendarByCity (city country method : string) (month year : Z)
| GToHCalendar (month year : Z).

(** What [new Date()] answers. *)
Record Date := {
  getFullYear : Z;
  getMonth : Z;   (* 0..11 *)
  getDate : Z
}.

(** A row of [athan_calendar]. *)
Record AthanRow := {
  athan_school_id : Z;
  city_id : Z;
  date : string;
  data : string
}.

(** What the services do not decide: the clock, the upstream service, the
    runtime's rendering of numbers, and which rows the two tables take.

    [upstream url] is the [data] array of the body the upstream answers
    with, [None] when the request fails.  The table definitions are not
    part of the program text; the statements are taken to be refused
    exactly on the rows for which the [_accepts] predicates are false. *)
Record Environment := {
  today : Date;
  upstream : Url -> option (list value);
  number_to_string : QArith_base.Q -> string;
  hijri_calendar_accepts : string -> string -> string -> bool;
  athan_calendar_accepts : list AthanRow -> AthanRow -> bool
}.

(** The state the services act on.

    Modelled from the spec: the definition of table [hijri_calendar] is not
    part of the program text; the spec has its rows keyed by the [month]
    column, so the table is a finite map from the value of [month] to the
    pair ([hijri_first_day], [hijri_last_day]). *)
Record World := {
  env : Environment;
  requests : list Url;          (* the requests issued so far, oldest first *)
  pool : bool;                  (* [DbService.pool] has been initialised *)
  hijri_calendar : gmap string (string * string);
  athan_calendar : list AthanRow
}.

Definition log_request (u : Url) (w : World) : World :=
  {| env := env w; requests := requests w ++ [u]; pool := pool w;
     hijri_calendar := hijri_calendar w; athan_calendar := athan_calendar w |}.

Definition with_hijri_calendar (t : gmap string (string * string)) (w : World) : World :=
  {| env := env w; requests := requests w; pool := pool w;
     hijri_calendar := t; athan_calendar := athan_calendar w |}.

Definition with_athan_calendar (t : list AthanRow) (w : World) : World :=
  {| env := env w; requests := requests w; pool := pool w;
     hijri_calendar := hijri_calendar w; athan_calendar := t |}.

(** An asynchronous method: it reads and changes the world and either
    resolves or rejects.  What was changed before a rejection stays
    changed. *)
Definition M (A : Type) : Type := World -> result A * World.

#[global] Instance M_ret : MRet M := fun _ a w => (Ok a, w).
#[global] Instance M_bind : MBind M := fun _ _ f m w =>
  match m w with
  | (Ok a, w') => f a w'
  | (Throw e, w') => (Throw e, w')
  end.

Definition throw {A} (e : error) : M A := fun w => (Throw e, w).

Definition lift {A} (r : result A) : M A := fun w => (r, w).

Definition now : M Date := fun w => (Ok (today (env w)), w).

(** [${v}] in a template literal, and the string [encodeURIComponent(v)]
    encodes. *)
Definition render (v : value) : M string := fun w =>
  (to_string (number_to_string (env w)) v, w).

(** [await axios.get(url)] and [firstValueFrom(httpService.get(url))],
    followed by [.data.data]. *)
Definition http_get (url : Url) : M (list value) := fun w =>
  match upstream (env w) url with
  | Some body => (Ok body, log_request url w)
  | None => (Throw UpstreamCallFailed, log_request url w)
  end.

(** A [for] loop over [xs] that threads the loop's variables [s]. *)
Fixpoint for_each {A S} (body : A -> S -> M S) (xs : list A) (s : S) : M S :=
  match xs with
  | [] => mret s
  | x :: xs' => s' ← body x s; for_each body xs' s'
  end.

(* ================================================================== *)
(** * PrayerService *)
(* ================================================================== *)

Module PrayerService.

(** The callback of [data.map] in [fetchData]. *)
Definition normalise (d : value) : result value :=
  d_date ← getProp d "date";
  d_date_gregorian ← getProp d_date "gregorian";
  date ← getProp d_date_gregorian "date";
  timings ← getProp d "timings";
  Fajr ← getProp timings "Fajr";
  Sunrise ← getProp timings "Sunrise";
  Dhuhr ← getProp timings "Dhuhr";
  Asr ← getProp timings "Asr";
  Maghrib ← getProp timings "Maghrib";
  Isha ← getProp timings "Isha";
  mret (VObj [("date", date);
              ("timings", VObj [("Fajr", Fajr); ("Shurooq", Sunrise);
                                ("Dhuhr", Dhuhr); ("Asr", Asr);
                                ("Maghrib", Maghrib); ("Isha", Isha)])]).

Definition fetchData (url : Url) : M (list value) :=
  data ← http_get url;
  today ← now;
  let next7Days := slice data (getDate today - 1) (getDate today + 6) in
  lift (mapM normalise data).

Definition getByCoordinates (lat lon method : value) : M (list value) :=
  today ← now;
  let month := getMonth today + 1 in
  let year := getFullYear today in
  latitude ← render lat;
  longitude ← render lon;
  method ← render method;
  fetchData (Calendar latitude longitude method month year).

Definition getByCity (city country method : value) : M (list value) :=
  today ← now;
  let month := getMonth today + 1 in
  let year := getFullYear today in
  city ← render city;
  country ← render country;
  method ← render method;
  fetchData (CalendarByCity city country method month year).

End PrayerService.

(* ================================================================== *)
(** * The strategies and AthanService *)
(* ================================================================== *)

Inductive StrategyClass := ByCoordinates | ByCity.

(** [interface IPrayerTimeStrategy] *)
Module IPrayerTimeStrategy.

Record t := {
  class : StrategyClass;
  getPrayerTimes : object -> M (list value);
  canHandle : object -> bool
}.

End IPrayerTimeStrategy.

Module CityPrayerTimeByAthanStrategy.

Definition canHandle (params : object) : bool := true.

(** The message of [logger.debug] is built whatever the log level: the
    four fields are rendered before the call. *)
Definition getPrayerTimes (params : object) : M (list value) :=
  _ ← render (get "city" params);
  _ ← render (get "country" params);
  _ ← render (get "method" params);
  _ ← render (get "duration" params);
  PrayerService.getByCity (get "city" params) (get "country" params) (get "method" params).

Definition strategy : IPrayerTimeStrategy.t :=
  {| IPrayerTimeStrategy.class := ByCity;
     IPrayerTimeStrategy.getPrayerTimes := getPrayerTimes;
     IPrayerTimeStrategy.canHandle := canHandle |}.

End CityPrayerTimeByAthanStrategy.

Module CoordinatesPrayerTimeByAthanStrategy.

Definition canHandle (params : object) : bool :=
  is_number (get "lat" params) &&
  is_number (get "lon" params) &&
  is_number (get "method" params) &&
  is_number (get "duration" params) && number_gt0 (get "duration" params).

(** The message of [logger.debug] is built whatever the log level: the
    four fields are rendered before the call. *)
Definition getPrayerTimes (params : object) : M (list value) :=
  _ ← render (get "lat" params);
  _ ← render (get "lon" params);
  _ ← render (get "method" params);
  _ ← render (get "duration" params);
  PrayerService.getByCoordinates (get "lat" params) (get "lon" params) (get "method" params).

Definition strategy : IPrayerTimeStrategy.t :=
  {| IPrayerTimeStrategy.class := ByCoordinates;
     IPrayerTimeStrategy.getPrayerTimes := getPrayerTimes;
     IPrayerTimeStrategy.canHandle := canHandle |}.

End CoordinatesPrayerTimeByAthanStrategy.

Module AthanService.

Definition strategies : list IPrayerTimeStrategy.t :=
  [CoordinatesPrayerTimeByAthanStrategy.strategy; CityPrayerTimeByAthanStrategy.strategy].

(** [this.strategies.find(s => s.canHandle(params))] *)
Definition find_strategy (params : object) : option IPrayerTimeStrategy.t :=
  List.find (fun s => IPrayerTimeStrategy.canHandle s params) strategies.

Definition getPrayerTimes (params : object) : M (list value) :=
  match find_strategy params with
  | None => throw NoStrategyFound
  | Some strategy => IPrayerTimeStrategy.getPrayerTimes strategy params
  end.

(** [executeStrategyByName] writes to the caller's [params] object; the
    object as it stands when the call settles is returned next to the
    outcome. *)
Definition executeStrategyByName (strategyName : string) (params : object)
  : World -> result (list value) * object * World := fun w =>
  if indexOf (toLowerCase strategyName) "athan-api-" =? 0 then
    let selectedStrategy := CityPrayerTimeByAthanStrategy.strategy in
    let params :=
      assign "method" (VNum (parseInt (charAt strategyName (length strategyName - 1)))) params in
    if negb (IPrayerTimeStrategy.canHandle selectedStrategy params)
    then (Throw ParametersNotValid, params, w)
    else let '(r, w') := IPrayerTimeStrategy.getPrayerTimes selectedStrategy params w in
         (r, params, w')
  else (Throw UnknownStrategy, params, w).

End AthanService.

(* ================================================================== *)
(** * HijriService *)
(* ================================================================== *)

Module HijriService.

Definition formatDate (date : string) : string :=
  let parts := split "-" date in
  join "-" [parts !! 2%nat; parts !! 1%nat; parts !! 0%nat].

(** [day.<calendar>.date] on a day of the conversion table. *)
Definition date_of (day : value) (calendar : string) : result value :=
  day_calendar ← getProp day calendar;
  getProp day_calendar "date".

(** [this.formatDate(day.<calendar>.date)] *)
Definition formatDate_of (day : value) (calendar : string) : result string :=
  date ← date_of day calendar;
  date ← as_string date;
  mret (formatDate date).

(** [{ first: days[0], last: days[days.length - 1] }] *)
Record Boundary := {
  first : value;
  last : value
}.

Definition boundary (days : list value) : Boundary :=
  {| first := index days 0; last := index days (Z.of_nat (List.length days) - 1) |}.

(** The body of the loop of [fetchMonthlyAnnouncements]. *)
Definition fetch_month (GregoYear : Z) (month : Z) (results : list (Z * Boundary))
  : M (list (Z * Boundary)) :=
  let url := GToHCalendar month GregoYear in
  days ← http_get url;
  mret (results ++ [(month, boundary days)]).

(** [results] is keyed by the month numbers 1..12, written in ascending
    order; it is kept as the list of its entries in that order, which is
    also the order in which [for (const month in calendar)] visits them. *)
Definition fetchMonthlyAnnouncements (GregoYear : Z) : M (list (Z * Boundary)) :=
  for_each (fetch_month GregoYear) (seqZ 1 12) [].

(** [INSERT INTO hijri_calendar (month, hijri_first_day, hijri_last_day)
     VALUES (?, ?, ?) on DUPLICATE KEY UPDATE
     hijri_first_day=hijri_first_day, hijri_last_day=hijri_last_day]:
    on a duplicate key each column is assigned its own value. *)
Definition insert_on_duplicate_key_keep (params : string * string * string)
    (table : gmap string (string * string)) : gmap string (string * string) :=
  let '(month, hijri_first_day, hijri_last_day) := params in
  match table !! month with
  | Some (first_day, last_day) => <[month := (first_day, last_day)]> table
  | None => <[month := (hijri_first_day, hijri_last_day)]> table
  end.

(** [this.dbService['pool'].execute(sql, params)]: reading [execute] off a
    pool that was never initialised throws. *)
Definition execute (params : string * string * string) : M unit := fun w =>
  if negb (pool w) then (Throw TypeError, w)
  else if negb (hijri_calendar_accepts (env w) params.1.1 params.1.2 params.2)
  then (Throw PersistenceWriteFailed, w)
  else (Ok (), with_hijri_calendar (insert_on_duplicate_key_keep params (hijri_calendar w)) w).

(** The three-element array [params] of a month. *)
Definition month_params (b : Boundary) : result (string * string * string) :=
  let firstDay := first b in
  let lastDay := last b in
  p0 ← formatDate_of firstDay "gregorian";
  p1 ← formatDate_of firstDay "hijri";
  p2 ← formatDate_of lastDay "hijri";
  mret (p0, p1, p2).

(** The body of the loop of [updateOfficialHijriCalendar]. *)
Definition upsert_month (entry : Z * Boundary) (answer : list (string * string * string))
  : M (list (string * string * string)) :=
  let '(month, b) := entry in
  params ← lift (month_params b);
  let answer := answer ++ [params] in
  _ ← execute params;
  mret answer.

(** The result is [None] for the bare [return;] and [Some answer]
    otherwise. *)
Definition updateOfficialHijriCalendar (gregoYear : Z)
  : M (option (list (string * string * string))) :=
  calendar ← fetchMonthlyAnnouncements gregoYear;
  if Nat.eqb (List.length calendar) 0 then mret None
  else
    answer ← for_each upsert_month calendar [];
    mret (Some answer).

End HijriService.

(* ================================================================== *)
(** * DbService *)
(* ================================================================== *)

Module DbService.

(** [INSERT INTO athan_calendar (athan_school_id, city_id, date, data)
     VALUES (?, ?, ?, ?)] *)
Definition execute (row : AthanRow) : M unit := fun w =>
  if athan_calendar_accepts (env w) (athan_calendar w) row
  then (Ok (), with_athan_calendar (athan_calendar w ++ [row]) w)
  else (Throw PersistenceWriteFailed, w).

Definition stringify (timings : value) : M (option string) := fun w =>
  (Ok (JSON.stringify (number_to_string (env w)) timings), w).

(** [const [day, month, year] = date.split('-');
     const formattedDate = `${year}-${month}-${day}`;] *)
Definition formattedDate (date : string) : string :=
  let parts := split "-" date in
  let day := parts !! 0%nat in
  let month := parts !! 1%nat in
  let year := parts !! 2%nat in
  interpolate year +:+ "-" +:+ interpolate month +:+ "-" +:+ interpolate day.

(** The body of the loop of [insertData].  The driver refuses to bind
    [undefined], which is what [JSON.stringify] yields on [undefined]
    timings. *)
Definition insert_record (athan_school_id city_id : Z) (record : value) (_ : unit) : M unit :=
  date ← lift (getProp record "date");
  timings ← lift (getProp record "timings");
  date ← lift (as_string date);
  let formattedDate := formattedDate date in
  blob ← stringify timings;
  match blob with
  | None => throw TypeError
  | Some blob =>
      execute {| athan_school_id := athan_school_id; city_id := city_id;
                 date := formattedDate; data := blob |}
  end.

(** [data] is the array [executeStrategyByName] resolved with;
    [for (const dataId in data)] visits its indices in order. *)
Definition insertData (athan_school_id city_id : Z) (data : list value) : M unit :=
  fun w =>
  if negb (pool w) then (Throw StorageUnavailable, w)
  else for_each (insert_record athan_school_id city_id) data () w.

End DbService.

(* ================================================================== *)
(** * A sample world *)
(* ================================================================== *)

Module Sample.

(** A day of the upstream prayer calendar. *)
Definition prayer_day (date fajr sunrise : string) : value :=
  VObj [("timings", VObj [("Fajr", VStr fajr); ("Sunrise", VStr sunrise);
                          ("Dhuhr", VStr "13:38"); ("Asr", VStr "17:19");
                          ("Maghrib", VStr "20:35"); ("Isha", VStr "22:04")]);
        ("date", VObj [("readable", VStr date);
                       ("gregorian", VObj [("date", VStr date)])])].

(** A day of the upstream conversion table. *)
Definition calendar_day (gregorian hijri : string) : value :=
  VObj [("hijri", VObj [("date", VStr hijri)]);
        ("gregorian", VObj [("date", VStr gregorian)])].

Definition two (month : Z) : string :=
  match month with
  | 1 => "01" | 2 => "02" | 3 => "03" | 4 => "04" | 5 => "05" | 6 => "06"
  | 7 => "07" | 8 => "08" | 9 => "09" | 10 => "10" | 11 => "11" | 12 => "12"
  | _ => "00"
  end.

(** The upstream knows the year 2024: the conversion table of a month, cut
    down to its first and last day, and the prayer calendar of a month,
    cut down to two days.  Requests for another year fail. *)
Definition aladhan (url : Url) : option (list value) :=
  match url with
  | GToHCalendar month year =>
      if year =? 2024 then
        Some [calendar_day ("01-" +:+ two month +:+ "-2024") ("19-" +:+ two month +:+ "-1445");
              calendar_day ("28-" +:+ two month +:+ "-2024") ("17-" +:+ two month +:+ "-1446")]
      else None
  | Calendar _ _ _ month year | CalendarByCity _ _ _ month year =>
      if year =? 2024 then
        Some [prayer_day ("01-" +:+ two month +:+ "-2024") "04:46" "06:28";
              prayer_day ("02-" +:+ two month +:+ "-2024") "04:47" "06:29"]
      else None
  end.

(** Integers are printed in decimal; other numbers are not printed by the
    examples. *)
Definition decimal (q : QArith_base.Q) : string :=
  pretty (QArith_base.Qnum q / Z.pos (QArith_base.Qden q)).

Definition environment : Environment :=
  {| today := {| getFullYear := 2024; getMonth := 6; getDate := 25 |};
     upstream := aladhan;
     number_to_string := decimal;
     hijri_calendar_accepts := fun _ _ _ => true;
     athan_calendar_accepts := fun _ _ => true |}.

(** The services just started: nothing requested, the pool initialised,
    the tables empty. *)
Definition world : World :=
  {| env := environment; requests := []; pool := true;
     hijri_calendar := ∅; athan_calendar := [] |}.

Definition by_city : object :=
  [("city", VStr "Rabat"); ("country", VStr "Morocco");
   ("method", VNum (of_Z 21)); ("duration", VNum (of_Z 7))].

Definition by_coordinates : object :=
  [("lat", VNum (Finite (QArith_base.Qmake 3402 100)));
   ("lon", VNum (Finite (QArith_base.Qmake (-684) 100)));
   ("method", VNum (of_Z 21)); ("duration", VNum (of_Z 7))].

(** A batch of one normalised day. *)
Definition timings : list (string * string) :=
  [("Fajr", "04:00"); ("Shurooq", "05:30"); ("Dhuhr", "13:38");
   ("Asr", "17:19"); ("Maghrib", "20:35"); ("Isha", "22:04")].

Definition records : list value :=
  [VObj [("date", VStr "25-07-2024");
         ("timings", VObj ((λ kv, (kv.1, VStr kv.2)) <$> timings))]].

End Sample.

(* ================================================================== *)
(** * PrayerController.getByCity *)
(* ================================================================== *)

Module PrayerController.

(** [parseInt(string, 10)]: as [parseInt] with the radix omitted, but a
    leading 0x is not taken for a radix prefix. *)
Definition parseInt10 (input : string) : number :=
  let '(sign, s) := strip_sign (trim_start input) in
  match digits 10 s None with
  | None => NaN
  | Some n => to_double (sign * n)
  end.

(** What a handler answers with: an object with an [error] member, or the
    calendar. *)
Inductive reply :=
| Refused (error : string)
| Days (calendar : list value).

(** [!x] on a query parameter, which is a string or absent. *)
Definition missing (x : option string) : bool :=
  match x with
  | Some (String _ _) => false
  | _ => true
  end.

(** The query parameters are absent ([None]) or strings; [method]
    defaults to ['2'] when absent. *)
Definition getByCity (city country method : option string) : M reply :=
  let method := default "2" method in
  if missing city || missing country
  then mret (Refused "City and country are required")
  else
    let calcMethod := parseInt10 method in
    calendar ← PrayerService.getByCity (VStr (default "" city)) (VStr (default "" country))
                 (VNum calcMethod);
    mret (Days calendar).

End PrayerController.

(* ================================================================== *)
(** * The catalogue of calculation methods *)
(* ================================================================== *)

Module Catalogue.

(** A row of [athan_school], without the identifier the table gives it. *)
Record row := {
  name : string;
  startegy_name : string;
  description : value
}.

(** The world of the synchroniser and of the strategies, with what the
    catalogue adds: the answer of the upstream to a request for the
    methods (the [data] member of the body, [None] when the request
    fails), the number of such requests issued, and table [athan_school]
    with the rows it takes.  The table definition is not part of the
    program text; the statement is taken to be refused exactly on the
    rows for which [athan_school_accepts] is false. *)
Record state := {
  world : World;
  methods : option value;
  methods_requests : nat;
  athan_school : list row;
  athan_school_accepts : list row → row → bool
}.

(** The errors of the catalogue: those of the other services, and the
    one [savePrayerCalculationMethods] raises on its argument (Invalid
    PrayerService dependency). *)
Inductive failure :=
| Raised (e : error)
| InvalidDependency.

Inductive settled (A : Type) :=
| Resolved (a : A)
| Rejected (f : failure).
Arguments Resolved {A} a.
Arguments Rejected {A} f.

Definition St (A : Type) : Type := state → settled A * state.

#[global] Instance St_ret : MRet St := fun _ a c => (Resolved a, c).
#[global] Instance St_bind : MBind St := fun _ _ f m c =>
  match m c with
  | (Resolved a, c') => f a c'
  | (Rejected e, c') => (Rejected e, c')
  end.

Definition reject {A} (f : failure) : St A := fun c => (Rejected f, c).

Definition of_result {A} (r : result A) : St A := fun c =>
  match r with
  | Ok a => (Resolved a, c)
  | Throw e => (Rejected (Raised e), c)
  end.

(** [for (...) { ... continue ... }] *)
Fixpoint for_keys {A} (body : A → St unit) (xs : list A) : St unit :=
  match xs with
  | [] => mret ()
  | x :: xs' => _ ← body x; for_keys body xs'
  end.

(** [PrayerService.getMethods], to which [AthanService.getMethods]
    delegates. *)
Definition getMethods : St value := fun c =>
  let c' := {| world := world c; methods := methods c;
               methods_requests := S (methods_requests c);
               athan_school := athan_school c;
               athan_school_accepts := athan_school_accepts c |} in
  match methods c with
  | Some data => (Resolved data, c')
  | None => (Rejected (Raised UpstreamCallFailed), c')
  end.

(** The keys [for (const methodId in methods)] visits, each with
    [methods[methodId]]: the properties of an object, the indices of an
    array or of a string, nothing on any other value.  An object holds
    its own properties in the order in which they are enumerated. *)
Definition entries (methods : value) : list (string * value) :=
  match methods with
  | VObj o => (λ k, (k, get k o)) <$> o.*1
  | VArr a => imap (λ i x, (pretty i, x)) a
  | VStr s => imap (λ i c, (pretty i, VStr (String c EmptyString))) (list_ascii_of_string s)
  | _ => []
  end.

(** [methods.hasOwnProperty(methodId)] on a key the loop visits: true,
    unless [methods] has an own [hasOwnProperty], which as a value read
    from JSON cannot be called. *)
Definition hasOwnProperty (methods : value) : result bool :=
  match methods with
  | VObj o => if has_own "hasOwnProperty" o then Throw TypeError else Ok true
  | _ => Ok true
  end.

(** [INSERT INTO athan_school (name, startegy_name,description)
     VALUES (?, ?, ?)] *)
Definition execute (r : row) : St unit := fun c =>
  if athan_school_accepts c (athan_school c) r
  then (Resolved (),
        {| world := world c; methods := methods c;
           methods_requests := methods_requests c;
           athan_school := athan_school c ++ [r];
           athan_school_accepts := athan_school_accepts c |})
  else (Rejected (Raised PersistenceWriteFailed), c).

(** The body of the loop of [savePrayerCalculationMethods]. *)
Definition save_method (methods : value) (entry : string * value) : St unit := fun c =>
  let '(methodId, method) := entry in
  (own ← of_result (hasOwnProperty methods);
   if own : bool then
     method_name ← of_result (getProp method "name");
     match method_name with
     | VUndefined => mret ()
     | _ =>
         method_id ← of_result (getProp method "id");
         label ← of_result (to_string (number_to_string (env (world c))) method_id);
         execute {| name := methodId;
                    startegy_name := "athan-api-" +:+ label;
                    description := method_name |}
     end
   else mret ()) c.

(** [prayerService] is [Some getMethods] when the argument is an object
    whose [getMethods] is that function, [None] when it is falsy or has
    no such function.  The counting of affected rows only feeds the
    log. *)
Definition savePrayerCalculationMethods (prayerService : option (St value)) : St unit :=
  fun c =>
  if negb (pool (world c)) then (Rejected (Raised StorageUnavailable), c)
  else match prayerService with
       | None => (Rejected InvalidDependency, c)
       | Some getMethods =>
           (methods ← getMethods;
            for_keys (save_method methods) (entries methods)) c
       end.

(** What [initMethods] answers with: an object with a [message], or an
    object with an [error] and the caught error's message as
    [details]. *)
Inductive reply :=
| Initialised
| Failed (details : failure).

(** [PrayerController.initMethods] *)
Definition initMethods : St reply := fun c =>
  match savePrayerCalculationMethods (Some getMethods) c with
  | (Resolved _, c') => (Resolved Initialised, c')
  | (Rejected f, c') => (Resolved (Failed f), c')
  end.

End Catalogue.

(* ================================================================== *)
(** * Further scenarios *)
(* ================================================================== *)

Module Scenario.

(** An upstream that answers March with an empty conversion table. *)
Definition march_empty (url : Url) : option (list value) :=
  match url with
  | GToHCalendar month year => if month =? 3 then Some [] else Sample.aladhan url
  | _ => Sample.aladhan url
  end.

Definition march_empty_world : World :=
  {| env := {| today := today Sample.environment;
               upstream := march_empty;
               number_to_string := Sample.decimal;
               hijri_calendar_accepts := fun _ _ _ => true;
               athan_calendar_accepts := fun _ _ => true |};
     requests := []; pool := true; hijri_calendar := ∅; athan_calendar := [] |}.

(** The sample world before [onModuleInit] has run. *)
Definition cold_world : World :=
  {| env := Sample.environment; requests := []; pool := false;
     hijri_calendar := ∅; athan_calendar := [] |}.

(** The row the sample upstream yields for a month of 2024. *)
Definition sample_row (month : Z) : string * string * string :=
  ("2024-" +:+ Sample.two month +:+ "-01",
   "1445-" +:+ Sample.two month +:+ "-19",
   "1446-" +:+ Sample.two month +:+ "-17").

(** A catalogue of three methods, one of them without a name, as the
    upstream lists them. *)
Definition catalogue : value :=
  VObj [("MWL", VObj [("id", VNum (of_Z 3)); ("name", VStr "Muslim World League");
                      ("params", VObj [("Fajr", VNum (of_Z 18)); ("Isha", VNum (of_Z 17))])]);
        ("CUSTOM", VObj [("id", VNum (of_Z 99))]);
        ("MOROCCO", VObj [("id", VNum (of_Z 21)); ("name", VStr "Morocco")])].

(** The sample world with that catalogue upstream and an empty table
    that takes every row. *)
Definition registry : Catalogue.state :=
  {| Catalogue.world := Sample.world;
     Catalogue.methods := Some catalogue;
     Catalogue.methods_requests := 0;
     Catalogue.athan_school := [];
     Catalogue.athan_school_accepts := fun _ _ => true |}.

End Scenario.

(* ================================================================== *)
(** * Reading an upstream day without throwing *)
(* ================================================================== *)

(** [v == null]: the values a property cannot be read from. *)
Definition nullish (v : value) : bool :=
  match v with
  | VUndefined | VNull => true
  | _ => false
  end.

(** [v?.k]: the property, [undefined] when there is none to read. *)
Definition read (v : value) (k : string) : value :=
  match v with
  | VObj o => get k o
  | _ => VUndefined
  end.

(** An upstream day that has a [date], a [date.gregorian] and
    [timings]. *)
Definition well_shaped (d : value) : bool :=
  negb (nullish d) &&
  negb (nullish (read d "date")) &&
  negb (nullish (read (read d "date") "gregorian")) &&
  negb (nullish (read d "timings")).

(** The day the services hand on for an upstream day. *)
Definition normalised_day (d : value) : value :=
  let timings := read d "timings" in
  VObj [("date", read (read (read d "date") "gregorian") "date");
        ("timings", VObj [("Fajr", read timings "Fajr");
                          ("Shurooq", read timings "Sunrise");
                          ("Dhuhr", read timings "Dhuhr");
                          ("Asr", read timings "Asr");
                          ("Maghrib", read timings "Maghrib");
                          ("Isha", read timings "Isha")])].

(** The record's [date] is a string. *)
Definition string_date (record : value) : bool :=
  match getProp record "date" with
  | Ok (VStr _) => true
  | _ => false
  end.

(* ================================================================== *)
(** * Vocabulary of the catalogue *)
(* ================================================================== *)

(** The state with [rows] appended to [athan_school]. *)
Definition with_methods_saved (rows : list Catalogue.row) (c : Catalogue.state)
  : Catalogue.state :=
  {| Catalogue.world := Catalogue.world c;
     Catalogue.methods := Catalogue.methods c;
     Catalogue.methods_requests := Catalogue.methods_requests c;
     Catalogue.athan_school := Catalogue.athan_school c ++ rows;
     Catalogue.athan_school_accepts := Catalogue.athan_school_accepts c |}.

(** The state after one more request for the methods. *)
Definition with_methods_requested (c : Catalogue.state) : Catalogue.state :=
  {| Catalogue.world := Catalogue.world c;
     Catalogue.methods := Catalogue.methods c;
     Catalogue.methods_requests := S (Catalogue.methods_requests c);
     Catalogue.athan_school := Catalogue.athan_school c;
     Catalogue.athan_school_accepts := Catalogue.athan_school_accepts c |}.

(** A method of the upstream catalogue: its key, its numeric [id] and its
    [name], when it has one. *)
Record Method := {
  method_key : string;
  method_id : Z;
  method_name : option string
}.

(** [entry] is the property of the catalogue that holds [m]. *)
Definition describes (entry : string * value) (m : Method) : Prop :=
  entry.1 = method_key m ∧
  getProp entry.2 "id" = Ok (VNum (of_Z (method_id m))) ∧
  getProp entry.2 "name" = Ok (from_option VStr VUndefined (method_name m)).

(** The row stored for a method that has a name. *)
Definition method_row (number_to_string : QArith_base.Q → string) (m : Method)
  : option Catalogue.row :=
  (λ n, {| Catalogue.name := method_key m;
           Catalogue.startegy_name :=
             "athan-api-" +:+ number_to_string (QArith_base.inject_Z (method_id m));
           Catalogue.description := VStr n |}) <$> method_name m.

(* ================================================================== *)
(** * Vocabulary of the properties *)
(* ================================================================== *)

(** The outcome, the parameters and the world of an execution by name. *)
Definition outcome {A} (x : result A * object * World) : result A := x.1.1.
Definition params_after {A} (x : result A * object * World) : object := x.1.2.
Definition world_after {A} (x : result A * object * World) : World := x.2.

(** The errors the fetch path can end in. *)
Definition fetch_error (e : error) : Prop := e = UpstreamCallFailed ∨ e = TypeError.

(** What an element of an array is joined as. *)
Definition element_text (number_to_string : QArith_base.Q → string) (x : value)
  : result (option string) :=
  match x with
  | VUndefined | VNull => Ok None
  | _ => s ← to_string number_to_string x; Ok (Some s)
  end.

(** The texts the values are rendered as, in order, and a type error when
    one of them has no rendering. *)
Definition renderings (e : Environment) (vs : list value) : result (list string) :=
  mapM (to_string (number_to_string e)) vs.

(** A request with numeric [lat], [lon] and [method] and a numeric
    [duration] above zero. *)
Definition coordinate_request (params : object) : Prop :=
  (∃ lat, get "lat" params = VNum lat) ∧
  (∃ lon, get "lon" params = VNum lon) ∧
  (∃ method, get "method" params = VNum method) ∧
  (∃ duration, get "duration" params = VNum duration ∧ gt0 duration = true).

(** Two worlds with the same environment and the same stored data. *)
Definition same_store (w w' : World) : Prop :=
  env w' = env w ∧ pool w' = pool w ∧
  hijri_calendar w' = hijri_calendar w ∧ athan_calendar w' = athan_calendar w.

(** The table after the upserts of [rows], in order. *)
Definition upserted (rows : list (string * string * string))
    (table : gmap string (string * string)) : gmap string (string * string) :=
  foldl (λ t params, HijriService.insert_on_duplicate_key_keep params t) table rows.

(** A normalised day whose fields are strings: its date and its timing
    map, as the list of its entries. *)
Record PrayerDay := {
  day_date : string;
  day_timings : list (string * string)
}.

Definition timings_object (timings : list (string * string)) : object :=
  (λ kv, (kv.1, VStr kv.2)) <$> timings.

(** [record] is an object with the date and the timing map of [day]. *)
Definition normalised (record : value) (day : PrayerDay) : Prop :=
  getProp record "date" = Ok (VStr (day_date day)) ∧
  getProp record "timings" = Ok (VObj (timings_object (day_timings day))).

Definition member (kv : string * string) : string :=
  JSON.quote kv.1 +:+ ":" +:+ JSON.quote kv.2.

(** The text of an object of strings. *)
Definition object_text (timings : list (string * string)) : string :=
  "{" +:+ join "," ((λ kv, Some (member kv)) <$> timings) +:+ "}".

(** The row [insertData] sends for a day. *)
Definition row_of (athan_school_id city_id : Z) (day : PrayerDay) : AthanRow :=
  {| athan_school_id := athan_school_id; city_id := city_id;
     date := DbService.formattedDate (day_date day);
     data := object_text (day_timings day) |}.

(** The table takes the rows one after the other. *)
Fixpoint accepted (e : Environment) (table rows : list AthanRow) : bool :=
  match rows with
  | [] => true
  | row :: rows' =>
      athan_calendar_accepts e table row && accepted e (table ++ [row]) rows'
  end.

(* ================================================================== *)
(** * Facts about strings *)
(* ================================================================== *)

Section SplitJoin.

Variable sep : ascii.

Lemma split_not_nil (s : string) : split sep s ≠ [].
Proof.
  destruct s as [|c s]; simpl; [done|].
  destruct (Ascii.eqb c sep); [done|].
  by destruct (split sep s).
Qed.

Lemma split_free (s : string) : occurs sep s = false → split sep s = [s].
Proof.
  induction s as [|c s IH]; simpl; [done|].
  intros [Hc Hs]%orb_false_iff.
  by rewrite Hc, (IH Hs).
Qed.

Lemma split_app (a rest : string) :
  occurs sep a = false →
  split sep (a +:+ String sep rest) = a :: split sep rest.
Proof.
  induction a as [|c a IH]; simpl.
  - intros _. by rewrite Ascii.eqb_refl.
  - intros [Hc Ha]%orb_false_iff.
    change (String.append a (String sep rest)) with (a +:+ String sep rest).
    by rewrite Hc, (IH Ha).
Qed.

Lemma split_parts_free (s : string) :
  Forall (λ p, occurs sep p = false) (split sep s).
Proof.
  induction s as [|c s IH]; simpl.
  - by repeat constructor.
  - destruct (Ascii.eqb c sep) eqn:Hc.
    + by constructor.
    + destruct (split sep s) as [|p ps].
      { constructor; [simpl; by rewrite Hc|constructor]. }
      inversion_clear IH as [|?? Hp Hps].
      constructor; [|done]. simpl. by rewrite Hc, Hp.
Qed.

Lemma join_cons (x y : option string) (rest : list (option string)) (glue : string) :
  join glue (x :: y :: rest) = default "" x +:+ glue +:+ join glue (y :: rest).
Proof. done. Qed.

Lemma join_split (s : string) :
  join (String sep EmptyString) (Some <$> split sep s) = s.
Proof.
  induction s as [|c s IH]; simpl; [done|].
  pose proof (split_not_nil s) as Hne.
  destruct (Ascii.eqb c sep) eqn:Hc.
  - apply Ascii.eqb_eq in Hc as ->.
    destruct (split sep s) as [|p ps]; [done|].
    rewrite !fmap_cons, join_cons, <-fmap_cons, IH. done.
  - destruct (split sep s) as [|p ps]; [done|].
    destruct ps as [|q ps].
    + simpl in *. by rewrite IH.
    + rewrite !fmap_cons, join_cons in *. cbn [default] in *. by rewrite <-IH.
Qed.

End SplitJoin.

Lemma app_one (c : ascii) (s : string) : String c EmptyString +:+ s = String c s.
Proof. done. Qed.

(** A string of three components: the components hold no separator and
    the string is their concatenation. *)
Lemma split_three (s a b c : string) :
  split "-" s = [a; b; c] →
  s = a +:+ "-" +:+ b +:+ "-" +:+ c ∧
  occurs "-" a = false ∧ occurs "-" b = false ∧ occurs "-" c = false.
Proof.
  intros Hs. split.
  - rewrite <-(join_split "-" s) at 1. rewrite Hs. done.
  - pose proof (split_parts_free "-" s) as Hfree. rewrite Hs in Hfree.
    inversion_clear Hfree as [|?? Ha Hfree'].
    inversion_clear Hfree' as [|?? Hb Hfree].
    by inversion_clear Hfree as [|?? Hc _].
Qed.

Lemma split_of_three (a b c : string) :
  occurs "-" a = false → occurs "-" b = false → occurs "-" c = false →
  split "-" (a +:+ "-" +:+ b +:+ "-" +:+ c) = [a; b; c].
Proof.
  intros Ha Hb Hc. rewrite !app_one.
  by rewrite (split_app "-" a _ Ha), (split_app "-" b _ Hb), (split_free "-" c Hc).
Qed.

(* ================================================================== *)
(** * Dates: formatDate and the conversion of insertData *)
(* ================================================================== *)

(** C10.  On every date string made of exactly three components separated
    by '-', [HijriService.formatDate] reverses the order of the components
    and so does the conversion of [DbService.insertData]; [formatDate] is
    therefore an involution and the two conversions are inverse of each
    other: a date taken through one and then the other is the date
    itself. *)
Theorem formatDate_involution (s a b c : string) :
  split "-" s = [a; b; c] →
  HijriService.formatDate s = c +:+ "-" +:+ b +:+ "-" +:+ a ∧
  HijriService.formatDate (HijriService.formatDate s) = s ∧
  DbService.formattedDate s = c +:+ "-" +:+ b +:+ "-" +:+ a ∧
  DbService.formattedDate (HijriService.formatDate s) = s ∧
  HijriService.formatDate (DbService.formattedDate s) = s.
Proof.
  intros Hs.
  destruct (split_three s a b c Hs) as (-> & Ha & Hb & Hc).
  pose proof (split_of_three c b a Hc Hb Ha) as Hrev.
  assert (Hf : HijriService.formatDate (a +:+ "-" +:+ b +:+ "-" +:+ c)
               = c +:+ "-" +:+ b +:+ "-" +:+ a).
  { unfold HijriService.formatDate. by rewrite Hs. }
  assert (Hd : DbService.formattedDate (a +:+ "-" +:+ b +:+ "-" +:+ c)
               = c +:+ "-" +:+ b +:+ "-" +:+ a).
  { unfold DbService.formattedDate. by rewrite Hs. }
  rewrite Hf, Hd. repeat split.
  - unfold HijriService.formatDate. by rewrite Hrev.
  - unfold DbService.formattedDate. by rewrite Hrev.
  - unfold HijriService.formatDate. by rewrite Hrev.
Qed.

Lemma formatDate_involution_witness :
  HijriService.formatDate (HijriService.formatDate "2024-07-25") = "2024-07-25" ∧
  DbService.formattedDate (HijriService.formatDate "2024-07-25") = "2024-07-25".
Proof.
  pose proof (formatDate_involution "2024-07-25" "2024" "07" "25" eq_refl)
    as (_ & Hinv & _ & Hback & _).
  exact (conj Hinv Hback).
Defined.

(* ================================================================== *)
(** * Facts about strategy names *)
(* ================================================================== *)

Lemma indexOf_from_range (s pat : string) (i : Z) :
  indexOf_from i s pat = -1 ∨ i ≤ indexOf_from i s pat.
Proof.
  revert i. induction s as [|c s IH]; intros i; cbn [indexOf_from].
  - destruct (String.prefix pat EmptyString); lia.
  - destruct (String.prefix pat (String c s)); [lia|].
    destruct (IH (i + 1)); lia.
Qed.

(** [s.indexOf(pat) == 0] says that [s] starts with [pat]. *)
Lemma indexOf_zero (s pat : string) :
  (indexOf s pat =? 0) = String.prefix pat s.
Proof.
  unfold indexOf. destruct s as [|c s]; cbn [indexOf_from].
  - by destruct (String.prefix pat EmptyString).
  - destruct (String.prefix pat (String c s)); [done|].
    apply Z.eqb_neq. destruct (indexOf_from_range s pat (0 + 1)); lia.
Qed.

Lemma prefix_toLowerCase (pat s : string) :
  String.prefix pat s = true →
  String.prefix (toLowerCase pat) (toLowerCase s) = true.
Proof.
  revert s. induction pat as [|a pat IH]; intros [|b s]; simpl; try done.
  destruct (ascii_dec a b) as [->|]; [|done].
  intros Hp. destruct (ascii_dec (lower_char b) (lower_char b)); [|done].
  by apply IH.
Qed.

Lemma get_app_length (front rest : string) (c : ascii) :
  String.get (String.length front) (front +:+ String c rest) = Some c.
Proof. induction front as [|a front IH]; simpl; [done|apply IH]. Qed.

Lemma length_app_one (front : string) (c : ascii) :
  length (front +:+ String c EmptyString) - 1 = Z.of_nat (String.length front).
Proof.
  unfold length. induction front as [|a front IH]; [done|].
  change (String a front +:+ String c EmptyString)
    with (String a (front +:+ String c EmptyString)).
  cbn [String.length]. lia.
Qed.

(** [s.charAt(s.length - 1)] is the last character of [s]. *)
Lemma charAt_last (front : string) (c : ascii) :
  let s := front +:+ String c EmptyString in
  charAt s (length s - 1) = String c EmptyString.
Proof.
  intros s. unfold s, charAt. rewrite length_app_one.
  destruct (Z.ltb_spec (Z.of_nat (String.length front)) 0); [lia|].
  by rewrite Nat2Z.id, get_app_length.
Qed.

(** Every string but the empty one ends in a last character. *)
Lemma string_snoc (s : string) :
  s ≠ EmptyString → ∃ front c, s = front +:+ String c EmptyString.
Proof.
  induction s as [|a s IH]; [done|]. intros _.
  destruct s as [|b s].
  - by exists EmptyString, a.
  - destruct IH as (front & c & ->); [done|].
    by exists (String a front), c.
Qed.

(** [parseInt] of a single character: the digit, and NaN on anything
    else. *)
Lemma parseInt_char (c : ascii) :
  parseInt (String c EmptyString)
  = if (48 <=? code c) && (code c <=? 57) then of_Z (code c - 48) else NaN.
Proof. by destruct c as [[] [] [] [] [] [] [] []]. Qed.

Lemma get_assign (k : string) (v : value) (o : object) :
  get k (assign k v o) = v.
Proof.
  induction o as [|[k' v'] o IH]; simpl.
  - by rewrite String.eqb_refl.
  - destruct (String.eqb k k') eqn:Hk; simpl; by rewrite ?String.eqb_refl, ?Hk.
Qed.

Lemma get_assign_ne (k k' : string) (v : value) (o : object) :
  k ≠ k' → get k' (assign k v o) = get k' o.
Proof.
  intros Hne. induction o as [|[k0 v0] o IH]; simpl.
  - destruct (String.eqb_spec k' k); [congruence|done].
  - destruct (String.eqb_spec k k0) as [<-|]; simpl.
    + destruct (String.eqb_spec k' k); [congruence|done].
    + by rewrite IH.
Qed.

(* ================================================================== *)
(** * Facts about the fetch path *)
(* ================================================================== *)

Lemma getProp_throw (v : value) (k : string) (e : error) :
  getProp v k = Throw e → e = TypeError.
Proof. destruct v; simpl; congruence. Qed.

Ltac step_getProp :=
  match goal with
  | |- context [getProp ?v ?k] =>
      let H := fresh "Hget" in
      destruct (getProp v k) eqn:H; cbn [mbind result_bind];
      [|apply getProp_throw in H; congruence]
  end.

Lemma normalise_throw (d : value) (e : error) :
  PrayerService.normalise d = Throw e → e = TypeError.
Proof.
  unfold PrayerService.normalise. unfold mbind at 1.
  repeat step_getProp. done.
Qed.

Lemma mapM_throw {A B} (f : A → result B) (l : list A) (e : error) :
  mapM f l = Throw e → ∃ x, x ∈ l ∧ f x = Throw e.
Proof.
  induction l as [|x l IH]; simpl; [done|].
  destruct (f x) eqn:Hx; simpl.
  - destruct (mapM f l) eqn:Hl; simpl; [done|].
    intros [= <-]. destruct IH as (y & Hy & Hfy); [done|].
    exists y. split; [by right|done].
  - intros [= <-]. exists x. split; [by left|done].
Qed.

Lemma length_mapM_Ok {A B} (f : A → result B) (l : list A) (k : list B) :
  mapM f l = Ok k → List.length k = List.length l.
Proof.
  revert k. induction l as [|x l IH]; intros k; simpl.
  - by intros [= <-].
  - destruct (f x); simpl; [|done].
    destruct (mapM f l); simpl; [|done].
    intros [= <-]. simpl. f_equal. by apply IH.
Qed.

(** [fetchData] issues exactly one request and maps every entry of the
    answer. *)
Lemma fetchData_eq (url : Url) (w : World) :
  PrayerService.fetchData url w
  = (match upstream (env w) url with
     | Some days => mapM PrayerService.normalise days
     | None => Throw UpstreamCallFailed
     end, log_request url w).
Proof.
  unfold PrayerService.fetchData, mbind, M_bind, http_get.
  by destruct (upstream (env w) url).
Qed.

Lemma fetchData_throw (url : Url) (w : World) (e : error) :
  (PrayerService.fetchData url w).1 = Throw e → fetch_error e.
Proof.
  rewrite fetchData_eq. simpl. destruct (upstream (env w) url) as [days|].
  - intros (d & _ & Hd)%mapM_throw. right. by eapply normalise_throw.
  - intros [= <-]. by left.
Qed.

(** Induction on a value whose array elements satisfy the property. *)
Lemma value_nested_ind (P : value → Prop) :
  P VUndefined → P VNull → (∀ b, P (VBool b)) → (∀ n, P (VNum n)) → (∀ s, P (VStr s)) →
  (∀ a, Forall P a → P (VArr a)) → (∀ o, P (VObj o)) → ∀ v, P v.
Proof.
  intros HU HN HB HNum HS HA HO.
  exact (fix go (v : value) : P v :=
           match v with
           | VUndefined => HU
           | VNull => HN
           | VBool b => HB b
           | VNum n => HNum n
           | VStr s => HS s
           | VArr a =>
               HA a ((fix all (l : list value) : Forall P l :=
                        match l with
                        | [] => @List.Forall_nil _ P
                        | x :: l' => @List.Forall_cons _ P x l' (go x) (all l')
                        end) a)
           | VObj o => HO o
           end).
Qed.

Section Rendering.

Variable nts : QArith_base.Q → string.

Lemma to_string_VArr (a : list value) :
  to_string nts (VArr a) = parts ← mapM (element_text nts) a; Ok (join "," parts).
Proof.
  cbn [to_string]. f_equal.
  induction a as [|x a IH]; [done|].
  cbn [mapM]. rewrite <-IH. clear IH.
  destruct x; cbn [element_text]; unfold mbind, result_bind; try done.
  all: by destruct (to_string nts _).
Qed.

(** Rendering fails with a type error only. *)
Lemma to_string_throw (v : value) (e : error) : to_string nts v = Throw e → e = TypeError.
Proof.
  revert e. induction v as [| |b|n|s|a IH|o] using value_nested_ind; intros e.
  - done.
  - done.
  - by destruct b.
  - by destruct n.
  - done.
  - rewrite to_string_VArr.
    assert (Helems : ∀ e', mapM (element_text nts) a = Throw e' → e' = TypeError).
    { induction IH as [|x a Hx _ IHa]; intros e'; [done|]. cbn [mapM].
      destruct (element_text nts x) as [r|e0] eqn:Hr; cbn [mbind result_bind].
      - destruct (mapM (element_text nts) a) as [rs|e1]; [done|].
        intros [= <-]. by apply IHa.
      - intros [= <-]. apply Hx.
        destruct x; try done; cbn [element_text] in Hr.
        all: destruct (to_string nts _) as [r'|e1]; cbn [mbind result_bind] in Hr;
          [done|by injection Hr as <-]. }
    destruct (mapM (element_text nts) a) as [rs|e1]; [done|].
    cbn [mbind result_bind]. intros [= <-]. by apply Helems.
  - cbn [to_string]. destruct (has_own "toString" o); [by intros [= <-]|done].
Qed.

(** A number always has a rendering, and so has a string. *)
Lemma to_string_VNum (n : number) : ∃ s, to_string nts (VNum n) = Ok s.
Proof. destruct n; by eexists. Qed.

End Rendering.

Lemma renderings_throw (e : Environment) (vs : list value) (err : error) :
  renderings e vs = Throw err → err = TypeError.
Proof. intros (v & _ & Hv)%mapM_throw. by eapply to_string_throw. Qed.

Ltac step_render :=
  match goal with
  | |- context [to_string ?nts ?v] =>
      let H := fresh "Hrender" in
      destruct (to_string nts v) eqn:H; cbn [mbind result_bind mret result_ret];
      [|apply to_string_throw in H; subst; try reflexivity]
  end.

(** The services render their arguments, in order, and then fetch. *)
Lemma getByCity_eq (city country method : value) (w : World) :
  PrayerService.getByCity city country method w
  = match renderings (env w) [city; country; method] with
    | Ok [city; country; method] =>
        PrayerService.fetchData
          (CalendarByCity city country method
             (getMonth (today (env w)) + 1) (getFullYear (today (env w)))) w
    | _ => (Throw TypeError, w)
    end.
Proof.
  unfold PrayerService.getByCity, renderings, render, now, mbind at 1 2 3 4, M_bind.
  cbn [mapM]. by repeat step_render.
Qed.

Lemma getByCoordinates_eq (lat lon method : value) (w : World) :
  PrayerService.getByCoordinates lat lon method w
  = match renderings (env w) [lat; lon; method] with
    | Ok [latitude; longitude; method] =>
        PrayerService.fetchData
          (Calendar latitude longitude method
             (getMonth (today (env w)) + 1) (getFullYear (today (env w)))) w
    | _ => (Throw TypeError, w)
    end.
Proof.
  unfold PrayerService.getByCoordinates, renderings, render, now, mbind at 1 2 3 4, M_bind.
  cbn [mapM]. by repeat step_render.
Qed.

Lemma City_getPrayerTimes_eq (params : object) (w : World) :
  CityPrayerTimeByAthanStrategy.getPrayerTimes params w
  = match renderings (env w) [get "city" params; get "country" params;
                              get "method" params; get "duration" params] with
    | Ok [city; country; method; _] =>
        PrayerService.fetchData
          (CalendarByCity city country method
             (getMonth (today (env w)) + 1) (getFullYear (today (env w)))) w
    | _ => (Throw TypeError, w)
    end.
Proof.
  unfold CityPrayerTimeByAthanStrategy.getPrayerTimes, render, mbind at 1 2 3 4, M_bind.
  rewrite getByCity_eq. unfold renderings. cbn [mapM]. by repeat step_render.
Qed.

Lemma Coordinates_getPrayerTimes_eq (params : object) (w : World) :
  CoordinatesPrayerTimeByAthanStrategy.getPrayerTimes params w
  = match renderings (env w) [get "lat" params; get "lon" params;
                              get "method" params; get "duration" params] with
    | Ok [latitude; longitude; method; _] =>
        PrayerService.fetchData
          (Calendar latitude longitude method
             (getMonth (today (env w)) + 1) (getFullYear (today (env w)))) w
    | _ => (Throw TypeError, w)
    end.
Proof.
  unfold CoordinatesPrayerTimeByAthanStrategy.getPrayerTimes, render, mbind at 1 2 3 4, M_bind.
  rewrite getByCoordinates_eq. unfold renderings. cbn [mapM]. by repeat step_render.
Qed.

(** Both strategies issue no request or one, change nothing else, and
    fail as a fetch does. *)
Lemma City_getPrayerTimes_throw (params : object) (w : World) (e : error) :
  (CityPrayerTimeByAthanStrategy.getPrayerTimes params w).1 = Throw e → fetch_error e.
Proof.
  rewrite City_getPrayerTimes_eq.
  destruct (renderings _ _) as [[|? [|? [|? [|? [|? ?]]]]]|?];
    try (intros [= <-]; by right).
  apply fetchData_throw.
Qed.

Lemma Coordinates_getPrayerTimes_throw (params : object) (w : World) (e : error) :
  (CoordinatesPrayerTimeByAthanStrategy.getPrayerTimes params w).1 = Throw e → fetch_error e.
Proof.
  rewrite Coordinates_getPrayerTimes_eq.
  destruct (renderings _ _) as [[|? [|? [|? [|? [|? ?]]]]]|?];
    try (intros [= <-]; by right).
  apply fetchData_throw.
Qed.

(** What [executeStrategyByName] does on a name it recognises. *)
Lemma executeStrategyByName_recognised (strategyName : string) (params : object) (w : World) :
  String.prefix "athan-api-" (toLowerCase strategyName) = true →
  let params' :=
    assign "method" (VNum (parseInt (charAt strategyName (length strategyName - 1)))) params in
  AthanService.executeStrategyByName strategyName params w
  = ((CityPrayerTimeByAthanStrategy.getPrayerTimes params' w).1, params',
     (CityPrayerTimeByAthanStrategy.getPrayerTimes params' w).2).
Proof.
  intros Hp params'. unfold AthanService.executeStrategyByName.
  rewrite indexOf_zero, Hp. cbn [IPrayerTimeStrategy.canHandle
    CityPrayerTimeByAthanStrategy.strategy CityPrayerTimeByAthanStrategy.canHandle negb
    IPrayerTimeStrategy.getPrayerTimes].
  fold params'. by destruct (CityPrayerTimeByAthanStrategy.getPrayerTimes params' w).
Qed.

(* ================================================================== *)
(** * Explicit resolution: executeStrategyByName *)
(* ================================================================== *)

(** C1.  For every strategy name that starts with [athan-api-],
    [executeStrategyByName] runs the By-City strategy on the request whose
    [method] was overwritten with [parseInt] of the single last character
    of the whole name.  That method always has a rendering; when the
    city, the country and the duration of the request have one too, the
    one upstream request that is issued carries the city, the country and
    that method, and when one of them has none (an object with an own
    [toString] member) the By-City strategy fails with a type error
    before it requests anything.  The last character read as an integer
    is the digit it shows and NaN when it is no digit.  In particular the
    name [athan-api-3] sets method 3 and the name [athan-api-12] sets
    method 2. *)
Theorem executeStrategyByName_method (strategyName : string) (params : object) (w : World) :
  String.prefix "athan-api-" strategyName = true →
  let method := VNum (parseInt (charAt strategyName (length strategyName - 1))) in
  let params' := assign "method" method params in
  let run := AthanService.executeStrategyByName strategyName params w in
  outcome run = (CityPrayerTimeByAthanStrategy.getPrayerTimes params' w).1 ∧
  world_after run = (CityPrayerTimeByAthanStrategy.getPrayerTimes params' w).2 ∧
  params_after run = params' ∧
  get "method" (params_after run) = method ∧
  (∃ method_text,
     to_string (number_to_string (env w)) method = Ok method_text ∧
     match renderings (env w)
             [get "city" params; get "country" params; get "duration" params] with
     | Ok [city; country; _] =>
         requests (world_after run)
         = requests w ++ [CalendarByCity city country method_text
                            (getMonth (today (env w)) + 1) (getFullYear (today (env w)))]
     | _ => outcome run = Throw TypeError ∧ world_after run = w
     end) ∧
  (∃ front c, strategyName = front +:+ String c EmptyString ∧
     method = VNum (if (48 <=? code c) && (code c <=? 57) then of_Z (code c - 48) else NaN)) ∧
  get "method" (params_after (AthanService.executeStrategyByName "athan-api-3" params w))
  = VNum (of_Z 3) ∧
  get "method" (params_after (AthanService.executeStrategyByName "athan-api-12" params w))
  = VNum (of_Z 2).
Proof.
  intros Hp method params' run.
  assert (Hrun : run = ((CityPrayerTimeByAthanStrategy.getPrayerTimes params' w).1, params',
                        (CityPrayerTimeByAthanStrategy.getPrayerTimes params' w).2)).
  { apply executeStrategyByName_recognised.
    by apply (prefix_toLowerCase "athan-api-"). }
  rewrite Hrun. unfold outcome, params_after, world_after. cbn [fst snd].
  split_and!; try done.
  - apply get_assign.
  - destruct (to_string_VNum (number_to_string (env w))
                (parseInt (charAt strategyName (length strategyName - 1))))
      as [method_text Hmethod].
    exists method_text. split; [done|].
    rewrite City_getPrayerTimes_eq. unfold params', method.
    rewrite get_assign, !get_assign_ne by done.
    unfold renderings. cbn [mapM]. rewrite Hmethod.
    repeat step_render; try done.
    by rewrite fetchData_eq.
  - destruct (string_snoc strategyName) as (front & c & Hname).
    { by intros ->. }
    exists front, c. split; [done|]. unfold method.
    by rewrite Hname, (charAt_last front c), parseInt_char.
  - rewrite (executeStrategyByName_recognised "athan-api-3" params w eq_refl).
    apply get_assign.
  - rewrite (executeStrategyByName_recognised "athan-api-12" params w eq_refl).
    apply get_assign.
Qed.

Lemma executeStrategyByName_method_witness :
  get "method"
    (params_after (AthanService.executeStrategyByName "athan-api-12" Sample.by_city Sample.world))
  = VNum (of_Z 2) ∧
  requests (world_after (AthanService.executeStrategyByName "athan-api-12" Sample.by_city Sample.world))
  = [CalendarByCity "Rabat" "Morocco" "2" 7 2024].
Proof.
  pose proof (executeStrategyByName_method "athan-api-12" Sample.by_city Sample.world eq_refl)
    as (_ & _ & _ & Hm & (method_text & Htext & Hreq) & _).
  injection Htext as <-.
  exact (conj Hm Hreq).
Defined.

(** C5, as the code has it.  A strategy name whose lower-cased form does
    not start with [athan-api-] is refused with [UnknownStrategy]: the
    request object is left as it was and nothing is requested or
    written. *)
Theorem executeStrategyByName_unknown (strategyName : string) (params : object) (w : World) :
  String.prefix "athan-api-" (toLowerCase strategyName) = false →
  AthanService.executeStrategyByName strategyName params w = (Throw UnknownStrategy, params, w).
Proof.
  intros Hp. unfold AthanService.executeStrategyByName.
  by rewrite indexOf_zero, Hp.
Qed.

Lemma executeStrategyByName_unknown_witness :
  AthanService.executeStrategyByName "unknown-x" Sample.by_city Sample.world
  = (Throw UnknownStrategy, Sample.by_city, Sample.world).
Proof.
  exact (executeStrategyByName_unknown "unknown-x" Sample.by_city Sample.world eq_refl).
Defined.

(** C5 as stated fails: the name [ATHAN-API-3] does not start with the
    literal prefix, yet it is recognised, the By-City fetch is executed
    and method 3 is set. *)
Lemma executeStrategyByName_upper_case_name :
  String.prefix "athan-api-" "ATHAN-API-3" = false ∧
  outcome (AthanService.executeStrategyByName "ATHAN-API-3" Sample.by_city Sample.world)
  ≠ Throw UnknownStrategy ∧
  requests (world_after (AthanService.executeStrategyByName "ATHAN-API-3" Sample.by_city Sample.world))
  = [CalendarByCity "Rabat" "Morocco" "3" 7 2024].
Proof.
  split; [done|]. split; [|by vm_compute].
  vm_compute. discriminate.
Qed.

(** C7.  The check made after the selection is the selected strategy's
    [canHandle]; for a name starting with [athan-api-] the selected
    strategy is By-City, whose [canHandle] holds of every request, so
    whatever the parameters the execution never ends in
    [ParametersNotValid]: it ends as the By-City fetch does, in a result,
    a failed upstream call or a type error. *)
Theorem executeStrategyByName_never_ParametersNotValid
    (strategyName : string) (params : object) (w : World) :
  String.prefix "athan-api-" strategyName = true →
  let run := AthanService.executeStrategyByName strategyName params w in
  IPrayerTimeStrategy.canHandle CityPrayerTimeByAthanStrategy.strategy (params_after run) = true ∧
  outcome run ≠ Throw ParametersNotValid ∧
  (∀ e, outcome run = Throw e → fetch_error e).
Proof.
  intros Hp run.
  assert (Herr : ∀ e, outcome run = Throw e → fetch_error e).
  { intros e. unfold run.
    rewrite executeStrategyByName_recognised by by apply (prefix_toLowerCase "athan-api-").
    unfold outcome. cbn [fst]. apply City_getPrayerTimes_throw. }
  split_and!; [done| |done].
  intros He. by destruct (Herr _ He).
Qed.

Lemma executeStrategyByName_never_ParametersNotValid_witness :
  IPrayerTimeStrategy.canHandle CityPrayerTimeByAthanStrategy.strategy
    (params_after (AthanService.executeStrategyByName "athan-api-3" [] Sample.world)) = true ∧
  outcome (AthanService.executeStrategyByName "athan-api-3" [] Sample.world)
  ≠ Throw ParametersNotValid.
Proof.
  pose proof (executeStrategyByName_never_ParametersNotValid "athan-api-3" [] Sample.world eq_refl)
    as (Hcan & Hne & _).
  exact (conj Hcan Hne).
Defined.

(* ================================================================== *)
(** * Implicit resolution: getPrayerTimes *)
(* ================================================================== *)

Lemma is_number_VNum (v : value) : is_number v = true ↔ ∃ n, v = VNum n.
Proof.
  split.
  - destruct v; try done. by eexists.
  - by intros [n ->].
Qed.

Lemma Coordinates_canHandle_spec (params : object) :
  CoordinatesPrayerTimeByAthanStrategy.canHandle params = true ↔ coordinate_request params.
Proof.
  unfold CoordinatesPrayerTimeByAthanStrategy.canHandle, coordinate_request.
  rewrite !andb_true_iff, !is_number_VNum. split.
  - intros ((((Hlat & Hlon) & Hm) & [d Hd]) & Hgt). rewrite Hd in Hgt.
    split_and!; try done. by exists d.
  - intros (Hlat & Hlon & Hm & d & Hd & Hgt). rewrite Hd.
    split_and!; try done. by exists d.
Qed.

Lemma find_strategy_eq (params : object) :
  AthanService.find_strategy params
  = Some (if CoordinatesPrayerTimeByAthanStrategy.canHandle params
          then CoordinatesPrayerTimeByAthanStrategy.strategy
          else CityPrayerTimeByAthanStrategy.strategy).
Proof.
  unfold AthanService.find_strategy, AthanService.strategies. simpl.
  by destruct (CoordinatesPrayerTimeByAthanStrategy.canHandle params).
Qed.

(** C2.  A request whose [lat], [lon] and [method] are numbers and whose
    [duration] is a number above zero is resolved to the By-Coordinates
    strategy; every other request falls through to the By-City strategy,
    whose [canHandle] holds unconditionally, and is fetched by it rather
    than refused. *)
Theorem getPrayerTimes_resolution (params : object) (w : World) :
  (coordinate_request params →
     AthanService.find_strategy params = Some CoordinatesPrayerTimeByAthanStrategy.strategy ∧
     AthanService.getPrayerTimes params w
     = CoordinatesPrayerTimeByAthanStrategy.getPrayerTimes params w) ∧
  (¬ coordinate_request params →
     AthanService.find_strategy params = Some CityPrayerTimeByAthanStrategy.strategy ∧
     CityPrayerTimeByAthanStrategy.canHandle params = true ∧
     AthanService.getPrayerTimes params w
     = CityPrayerTimeByAthanStrategy.getPrayerTimes params w ∧
     (AthanService.getPrayerTimes params w).1 ≠ Throw NoStrategyFound).
Proof.
  unfold AthanService.getPrayerTimes. rewrite find_strategy_eq.
  split; intros Hreq.
  - apply Coordinates_canHandle_spec in Hreq. by rewrite Hreq.
  - assert (CoordinatesPrayerTimeByAthanStrategy.canHandle params = false) as ->.
    { apply not_true_is_false. by rewrite Coordinates_canHandle_spec. }
    split_and!; try done.
    cbn [IPrayerTimeStrategy.getPrayerTimes CityPrayerTimeByAthanStrategy.strategy].
    intros He. by destruct (City_getPrayerTimes_throw _ _ _ He).
Qed.

Lemma getPrayerTimes_resolution_witness :
  AthanService.find_strategy Sample.by_coordinates
  = Some CoordinatesPrayerTimeByAthanStrategy.strategy ∧
  AthanService.find_strategy Sample.by_city = Some CityPrayerTimeByAthanStrategy.strategy.
Proof.
  split.
  - refine (proj1 (proj1 (getPrayerTimes_resolution Sample.by_coordinates Sample.world) _)).
    unfold coordinate_request. simpl. split_and!; eexists; try split; reflexivity.
  - refine (proj1 (proj2 (getPrayerTimes_resolution Sample.by_city Sample.world) _)).
    intros ([lat Hlat] & _). simpl in Hlat. discriminate.
Defined.

(** C6.  Implicit resolution never ends in [NoStrategyFound]: of every
    request some strategy's [canHandle] holds, the By-City one at least,
    so a strategy is always found, and the fetch that follows ends in a
    result, a failed upstream call or a type error. *)
Theorem getPrayerTimes_never_NoStrategyFound (params : object) (w : World) :
  (∃ s, s ∈ AthanService.strategies ∧ IPrayerTimeStrategy.canHandle s params = true) ∧
  CityPrayerTimeByAthanStrategy.canHandle params = true ∧
  AthanService.find_strategy params ≠ None ∧
  (AthanService.getPrayerTimes params w).1 ≠ Throw NoStrategyFound ∧
  (∀ e, (AthanService.getPrayerTimes params w).1 = Throw e → fetch_error e).
Proof.
  assert (Herr : ∀ e, (AthanService.getPrayerTimes params w).1 = Throw e → fetch_error e).
  { intros e. unfold AthanService.getPrayerTimes. rewrite find_strategy_eq.
    destruct (CoordinatesPrayerTimeByAthanStrategy.canHandle params);
      cbn [IPrayerTimeStrategy.getPrayerTimes CityPrayerTimeByAthanStrategy.strategy
           CoordinatesPrayerTimeByAthanStrategy.strategy].
    - apply Coordinates_getPrayerTimes_throw.
    - apply City_getPrayerTimes_throw. }
  split_and!; try done.
  - exists CityPrayerTimeByAthanStrategy.strategy. split; [|done].
    unfold AthanService.strategies. set_solver.
  - by rewrite find_strategy_eq.
  - intros He. by destruct (Herr _ He).
Qed.

(* ================================================================== *)
(** * The By-Coordinates fetch and the duration *)
(* ================================================================== *)

(** The fields of a request with numeric [lat], [lon], [method] and
    [duration] all have a rendering. *)
Lemma coordinate_request_renders (params : object) (nts : QArith_base.Q → string) :
  coordinate_request params →
  ∃ latitude longitude method duration,
    to_string nts (get "lat" params) = Ok latitude ∧
    to_string nts (get "lon" params) = Ok longitude ∧
    to_string nts (get "method" params) = Ok method ∧
    to_string nts (get "duration" params) = Ok duration.
Proof.
  intros ([lat ->] & [lon ->] & [method ->] & (duration & -> & _)).
  destruct (to_string_VNum nts lat) as [? ->].
  destruct (to_string_VNum nts lon) as [? ->].
  destruct (to_string_VNum nts method) as [? ->].
  destruct (to_string_VNum nts duration) as [? ->].
  by do 4 eexists.
Qed.

(** C9.  On an accepted coordinate request the By-Coordinates fetch
    requests the current Gregorian month at the request's coordinates and
    method and answers with the mapping of every entry the upstream
    returned, one for one.  The [duration] is read for the debug line
    only: it is not part of the request and bounds nothing.  Two accepted
    requests that agree on every field but [duration] therefore compute
    the same outcome and leave the same world, directly and through
    implicit resolution. *)
Theorem Coordinates_fetch_ignores_duration (p1 p2 : object) (w : World) :
  (∀ k, k ≠ "duration" → get k p1 = get k p2) →
  coordinate_request p1 → coordinate_request p2 →
  let run := CoordinatesPrayerTimeByAthanStrategy.getPrayerTimes p1 w in
  run = CoordinatesPrayerTimeByAthanStrategy.getPrayerTimes p2 w ∧
  AthanService.getPrayerTimes p1 w = AthanService.getPrayerTimes p2 w ∧
  ∃ latitude longitude method,
    renderings (env w) [get "lat" p1; get "lon" p1; get "method" p1]
    = Ok [latitude; longitude; method] ∧
    let url := Calendar latitude longitude method
                 (getMonth (today (env w)) + 1) (getFullYear (today (env w))) in
    requests run.2 = requests w ++ [url] ∧
    (∀ days, upstream (env w) url = Some days →
       run.1 = mapM PrayerService.normalise days ∧
       ∀ out, run.1 = Ok out → List.length out = List.length days).
Proof.
  intros Hsame Hp1 Hp2 run.
  destruct (coordinate_request_renders p1 (number_to_string (env w)) Hp1)
    as (latitude & longitude & method & d1 & Hlat & Hlon & Hmethod & Hd1).
  destruct (coordinate_request_renders p2 (number_to_string (env w)) Hp2)
    as (_ & _ & _ & d2 & _ & _ & _ & Hd2).
  assert (Hrun : run = PrayerService.fetchData
                         (Calendar latitude longitude method
                            (getMonth (today (env w)) + 1) (getFullYear (today (env w)))) w).
  { unfold run. rewrite Coordinates_getPrayerTimes_eq. unfold renderings. cbn [mapM].
    by rewrite Hlat, Hlon, Hmethod, Hd1. }
  assert (Hfront : renderings (env w) [get "lat" p1; get "lon" p1; get "method" p1]
                   = Ok [latitude; longitude; method]).
  { unfold renderings. cbn [mapM]. by rewrite Hlat, Hlon, Hmethod. }
  assert (Heq : run = CoordinatesPrayerTimeByAthanStrategy.getPrayerTimes p2 w).
  { rewrite Hrun, Coordinates_getPrayerTimes_eq. unfold renderings. cbn [mapM].
    rewrite <-(Hsame "lat"), <-(Hsame "lon"), <-(Hsame "method") by done.
    by rewrite Hlat, Hlon, Hmethod, Hd2. }
  split_and!; [done| |].
  - apply Coordinates_canHandle_spec in Hp1, Hp2.
    unfold AthanService.getPrayerTimes. rewrite !find_strategy_eq, Hp1, Hp2. exact Heq.
  - exists latitude, longitude, method. split; [done|]. intros url.
    rewrite Hrun, fetchData_eq. cbn [fst snd log_request requests]. split; [done|].
    intros days Hdays. fold url. rewrite Hdays. split; [done|].
    intros out. apply length_mapM_Ok.
Qed.

Lemma Coordinates_fetch_ignores_duration_witness :
  AthanService.getPrayerTimes Sample.by_coordinates Sample.world
  = AthanService.getPrayerTimes
      (assign "duration" (VNum (of_Z 30)) Sample.by_coordinates) Sample.world.
Proof.
  refine (proj1 (proj2 (Coordinates_fetch_ignores_duration Sample.by_coordinates
            (assign "duration" (VNum (of_Z 30)) Sample.by_coordinates) Sample.world _ _ _))).
  - intros k Hk. symmetry. apply get_assign_ne. congruence.
  - apply Coordinates_canHandle_spec. reflexivity.
  - apply Coordinates_canHandle_spec. reflexivity.
Defined.

(* ================================================================== *)
(** * Facts about the calendar synchroniser *)
(* ================================================================== *)

Lemma same_store_trans (w1 w2 w3 : World) :
  same_store w1 w2 → same_store w2 w3 → same_store w1 w3.
Proof. unfold same_store. intros (?&?&?&?) (?&?&?&?). split_and!; congruence. Qed.

Lemma same_store_log_request (url : Url) (w : World) : same_store w (log_request url w).
Proof. done. Qed.

Section FetchLoop.

Variable GregoYear : Z.

Lemma fetch_month_eq (month : Z) (results : list (Z * HijriService.Boundary)) (w : World) :
  HijriService.fetch_month GregoYear month results w
  = (match upstream (env w) (GToHCalendar month GregoYear) with
     | Some days => Ok (results ++ [(month, HijriService.boundary days)])
     | None => Throw UpstreamCallFailed
     end, log_request (GToHCalendar month GregoYear) w).
Proof.
  unfold HijriService.fetch_month, mbind, M_bind, http_get.
  by destruct (upstream (env w) (GToHCalendar month GregoYear)).
Qed.

(** The fetch loop only adds to the log of requests, and what it computes
    depends on the environment alone. *)
Lemma fetch_loop_store (months : list Z) (results : list (Z * HijriService.Boundary))
    (w : World) :
  same_store w (for_each (HijriService.fetch_month GregoYear) months results w).2.
Proof.
  revert results w. induction months as [|month months IH]; intros results w; [done|].
  cbn [for_each]. unfold mbind, M_bind. rewrite fetch_month_eq.
  destruct (upstream (env w) (GToHCalendar month GregoYear)); [|done].
  eapply same_store_trans; [apply same_store_log_request|apply IH].
Qed.

Lemma fetch_loop_env (months : list Z) (results : list (Z * HijriService.Boundary))
    (w w' : World) :
  env w' = env w →
  (for_each (HijriService.fetch_month GregoYear) months results w').1
  = (for_each (HijriService.fetch_month GregoYear) months results w).1.
Proof.
  revert results w w'.
  induction months as [|month months IH]; intros results w w' Henv; [done|].
  cbn [for_each]. unfold mbind, M_bind. rewrite !fetch_month_eq, Henv.
  destruct (upstream (env w) (GToHCalendar month GregoYear)); [|done].
  by apply IH.
Qed.

(** When every month is answered, the loop gathers the boundary of every
    month, in order, and logs one request a month. *)
Lemma fetch_loop_ok (days : Z → list value) (months : list Z)
    (results : list (Z * HijriService.Boundary)) (w : World) :
  (∀ month, month ∈ months →
     upstream (env w) (GToHCalendar month GregoYear) = Some (days month)) →
  let r := for_each (HijriService.fetch_month GregoYear) months results w in
  r.1 = Ok (results ++ ((λ month, (month, HijriService.boundary (days month))) <$> months)) ∧
  requests r.2 = requests w ++ ((λ month, GToHCalendar month GregoYear) <$> months).
Proof.
  revert results w. induction months as [|month months IH]; intros results w Hup.
  - simpl. by rewrite !app_nil_r.
  - cbn [for_each]. unfold mbind, M_bind. rewrite fetch_month_eq.
    rewrite (Hup month) by by left.
    destruct (IH (results ++ [(month, HijriService.boundary (days month))])
                 (log_request (GToHCalendar month GregoYear) w)) as [Hr Hreq].
    { intros m Hm. apply Hup. by right. }
    cbn zeta. rewrite Hr, Hreq. cbn [log_request requests].
    by rewrite !fmap_cons, <-!app_assoc.
Qed.

End FetchLoop.

Lemma with_hijri_calendar_id (w : World) : with_hijri_calendar (hijri_calendar w) w = w.
Proof. by destruct w. Qed.

(** The statement never changes a row that is there. *)
Lemma insert_keep_subseteq (params : string * string * string)
    (table : gmap string (string * string)) :
  table ⊆ HijriService.insert_on_duplicate_key_keep params table.
Proof.
  destruct params as [[month first_day] last_day].
  unfold HijriService.insert_on_duplicate_key_keep.
  destruct (table !! month) as [[f l]|] eqn:Hrow.
  - by rewrite insert_id.
  - by apply insert_subseteq.
Qed.

Lemma insert_keep_present (params : string * string * string)
    (table : gmap string (string * string)) :
  is_Some (table !! params.1.1) →
  HijriService.insert_on_duplicate_key_keep params table = table.
Proof.
  destruct params as [[month first_day] last_day]. intros [[f l] Hrow]. simpl in Hrow.
  unfold HijriService.insert_on_duplicate_key_keep. rewrite Hrow. by apply insert_id.
Qed.

Lemma insert_keep_absent (params : string * string * string)
    (table : gmap string (string * string)) :
  table !! params.1.1 = None →
  HijriService.insert_on_duplicate_key_keep params table
  = <[params.1.1 := (params.1.2, params.2)]> table.
Proof.
  destruct params as [[month first_day] last_day]. simpl. intros Hrow.
  unfold HijriService.insert_on_duplicate_key_keep. by rewrite Hrow.
Qed.

Lemma insert_keep_key (params : string * string * string)
    (table : gmap string (string * string)) :
  is_Some (HijriService.insert_on_duplicate_key_keep params table !! params.1.1).
Proof.
  destruct (table !! params.1.1) as [row|] eqn:Hrow.
  - rewrite insert_keep_present by eauto. eauto.
  - rewrite insert_keep_absent by done. rewrite lookup_insert_eq. eauto.
Qed.

Lemma upsert_month_eq (entry : Z * HijriService.Boundary)
    (answer : list (string * string * string)) (w : World) :
  HijriService.upsert_month entry answer w
  = match HijriService.month_params entry.2 with
    | Throw e => (Throw e, w)
    | Ok params =>
        if negb (pool w) then (Throw TypeError, w)
        else if negb (hijri_calendar_accepts (env w) params.1.1 params.1.2 params.2)
        then (Throw PersistenceWriteFailed, w)
        else (Ok (answer ++ [params]),
              with_hijri_calendar
                (HijriService.insert_on_duplicate_key_keep params (hijri_calendar w)) w)
    end.
Proof.
  destruct entry as [month b]. unfold HijriService.upsert_month, mbind, M_bind, lift.
  cbn [snd]. destruct (HijriService.month_params b) as [params|e]; [|done].
  unfold HijriService.execute.
  destruct (pool w); [|done]. cbn [negb].
  by destruct (hijri_calendar_accepts (env w) params.1.1 params.1.2 params.2).
Qed.

(** The upsert loop touches nothing but the table, and the table only
    grows. *)
Lemma upsert_loop_store (calendar : list (Z * HijriService.Boundary))
    (answer : list (string * string * string)) (w : World) :
  let w' := (for_each HijriService.upsert_month calendar answer w).2 in
  env w' = env w ∧ pool w' = pool w ∧ requests w' = requests w ∧
  athan_calendar w' = athan_calendar w ∧ hijri_calendar w ⊆ hijri_calendar w'.
Proof.
  revert answer w. induction calendar as [|entry calendar IH]; intros answer w; [done|].
  cbn [for_each]. unfold mbind, M_bind. rewrite upsert_month_eq.
  destruct (HijriService.month_params entry.2) as [params|e]; [|done].
  destruct (pool w) eqn:Hpool; [|done]. cbn [negb].
  destruct (hijri_calendar_accepts (env w) params.1.1 params.1.2 params.2); [|done].
  cbn [negb].
  destruct (IH (answer ++ [params])
              (with_hijri_calendar
                 (HijriService.insert_on_duplicate_key_keep params (hijri_calendar w)) w))
    as (Henv & Hp & Hreq & Hathan & Hsub).
  cbn zeta. rewrite Henv, Hp, Hreq, Hathan. split_and!; try done.
  etrans; [apply insert_keep_subseteq|exact Hsub].
Qed.

(** The answer is what the loop was given followed by the rows it sent,
    and the table is the table after the upserts of these rows. *)
Lemma upsert_loop_answer (calendar : list (Z * HijriService.Boundary))
    (answer done : list (string * string * string)) (w w' : World) :
  for_each HijriService.upsert_month calendar answer w = (Ok done, w') →
  ∃ rows, done = answer ++ rows ∧
          Forall2 (λ entry params, HijriService.month_params entry.2 = Ok params) calendar rows ∧
          hijri_calendar w' = upserted rows (hijri_calendar w).
Proof.
  revert answer w. induction calendar as [|entry calendar IH]; intros answer w.
  - intros [= <- <-]. exists []. by rewrite app_nil_r.
  - cbn [for_each]. unfold mbind, M_bind. rewrite upsert_month_eq.
    destruct (HijriService.month_params entry.2) as [params|e] eqn:Hparams; [|done].
    destruct (pool w); [|done]. cbn [negb].
    destruct (hijri_calendar_accepts (env w) params.1.1 params.1.2 params.2); [|done].
    cbn [negb]. intros (rows & -> & Hrows & Htable)%IH.
    exists (params :: rows). rewrite <-app_assoc. split_and!; [done| |done].
    by constructor.
Qed.

(** Run again on a table that holds every row of a first run, the loop
    changes nothing. *)
Lemma upsert_loop_again (calendar : list (Z * HijriService.Boundary))
    (answer answer' : list (string * string * string)) (w w' : World) :
  env w' = env w → pool w' = pool w →
  hijri_calendar (for_each HijriService.upsert_month calendar answer w).2 ⊆ hijri_calendar w' →
  hijri_calendar (for_each HijriService.upsert_month calendar answer' w').2
  = hijri_calendar w'.
Proof.
  revert answer answer' w w'.
  induction calendar as [|entry calendar IH]; intros answer answer' w w' Henv Hpool; [done|].
  cbn [for_each]. unfold mbind, M_bind. rewrite !upsert_month_eq, Henv, Hpool.
  destruct (HijriService.month_params entry.2) as [params|e]; [|done].
  destruct (pool w) eqn:Hpw; [|done]. cbn [negb].
  destruct (hijri_calendar_accepts (env w) params.1.1 params.1.2 params.2); [|done].
  cbn [negb]. intros Hsub.
  set (w1 := with_hijri_calendar
               (HijriService.insert_on_duplicate_key_keep params (hijri_calendar w)) w) in *.
  assert (Hkey : is_Some (hijri_calendar w' !! params.1.1)).
  { destruct (insert_keep_key params (hijri_calendar w)) as [row Hrow].
    exists row. eapply lookup_weaken; [|exact Hsub].
    eapply lookup_weaken; [exact Hrow|].
    apply (upsert_loop_store calendar (answer ++ [params]) w1). }
  rewrite (insert_keep_present params _ Hkey), with_hijri_calendar_id.
  apply (IH (answer ++ [params]) _ w1 w'); [exact Henv| |exact Hsub].
  rewrite Hpool. symmetry. exact Hpw.
Qed.

Lemma updateOfficialHijriCalendar_eq (gregoYear : Z) (w : World) :
  HijriService.updateOfficialHijriCalendar gregoYear w
  = match HijriService.fetchMonthlyAnnouncements gregoYear w with
    | (Ok calendar, w1) =>
        if Nat.eqb (List.length calendar) 0 then (Ok None, w1)
        else match for_each HijriService.upsert_month calendar [] w1 with
             | (Ok answer, w2) => (Ok (Some answer), w2)
             | (Throw e, w2) => (Throw e, w2)
             end
    | (Throw e, w1) => (Throw e, w1)
    end.
Proof.
  unfold HijriService.updateOfficialHijriCalendar, mbind, M_bind.
  destruct (HijriService.fetchMonthlyAnnouncements gregoYear w) as [[calendar|e] w1]; [|done].
  destruct (Nat.eqb (List.length calendar) 0); [done|].
  by destruct (for_each HijriService.upsert_month calendar [] w1) as [[answer|e] w2].
Qed.

(** What the loop answers depends on the environment and the pool, not on
    the rows the table holds. *)
Lemma upsert_loop_result (calendar : list (Z * HijriService.Boundary))
    (answer : list (string * string * string)) (w w' : World) :
  env w' = env w → pool w' = pool w →
  (for_each HijriService.upsert_month calendar answer w').1
  = (for_each HijriService.upsert_month calendar answer w).1.
Proof.
  revert answer w w'.
  induction calendar as [|entry calendar IH]; intros answer w w' Henv Hpool; [done|].
  cbn [for_each]. unfold mbind, M_bind. rewrite !upsert_month_eq, Henv, Hpool.
  destruct (HijriService.month_params entry.2) as [params|e]; [|done].
  destruct (pool w) eqn:Hpw; [|done]. cbn [negb].
  destruct (hijri_calendar_accepts (env w) params.1.1 params.1.2 params.2); [|done].
  cbn [negb]. apply IH; [exact Henv|]. simpl. congruence.
Qed.

(** When every row is computed and taken, the loop answers with all of
    them, in order. *)
Lemma upsert_loop_ok (calendar : list (Z * HijriService.Boundary))
    (rows answer : list (string * string * string)) (w : World) :
  pool w = true →
  Forall2 (λ entry params,
             HijriService.month_params entry.2 = Ok params ∧
             hijri_calendar_accepts (env w) params.1.1 params.1.2 params.2 = true)
          calendar rows →
  (for_each HijriService.upsert_month calendar answer w).1 = Ok (answer ++ rows).
Proof.
  intros Hpool Hrows. remember (env w) as e eqn:He. revert answer w Hpool He.
  induction Hrows as [|entry params calendar rows [Hparams Haccepts] _ IH];
    intros answer w Hpool ->.
  - simpl. by rewrite app_nil_r.
  - cbn [for_each]. unfold mbind, M_bind.
    rewrite upsert_month_eq, Hparams, Hpool, Haccepts. cbn [negb].
    rewrite IH by done. by rewrite <-app_assoc.
Qed.

Lemma upserted_subseteq (rows : list (string * string * string))
    (table : gmap string (string * string)) :
  table ⊆ upserted rows table.
Proof.
  revert table. induction rows as [|params rows IH]; intros table; [done|].
  unfold upserted. cbn [foldl]. etrans; [apply insert_keep_subseteq|apply IH].
Qed.

Lemma upserted_key (rows : list (string * string * string))
    (table : gmap string (string * string)) (params : string * string * string) :
  params ∈ rows → is_Some (upserted rows table !! params.1.1).
Proof.
  revert table. induction rows as [|row rows IH]; intros table Hin.
  - by apply elem_of_nil in Hin.
  - apply elem_of_cons in Hin as [->|Hin].
    + destruct (insert_keep_key row table) as [v Hv]. exists v.
      eapply lookup_weaken; [exact Hv|].
      apply (upserted_subseteq rows).
    + by apply IH.
Qed.

Lemma index_head (days : list value) (day : value) :
  head days = Some day → index days 0 = day.
Proof. destruct days; [done|]. by intros [= ->]. Qed.

Lemma index_last (days : list value) (day : value) :
  last days = Some day → index days (Z.of_nat (List.length days) - 1) = day.
Proof.
  intros Hlast. unfold index.
  assert (Hlen : days ≠ []) by by intros ->.
  destruct (Z.ltb_spec (Z.of_nat (List.length days) - 1) 0) as [Hlt|_].
  { destruct days; [done|]. simpl in Hlt. lia. }
  replace (Z.to_nat (Z.of_nat (List.length days) - 1)) with (pred (List.length days)) by lia.
  by rewrite <-last_lookup, Hlast.
Qed.

Lemma formatDate_of_string (day : value) (calendar date : string) :
  HijriService.date_of day calendar = Ok (VStr date) →
  HijriService.formatDate_of day calendar = Ok (HijriService.formatDate date).
Proof. unfold HijriService.formatDate_of. by intros ->. Qed.

(** [formatDate] reverses a date of three components. *)
Lemma formatDate_three (a b c : string) :
  occurs "-" a = false → occurs "-" b = false → occurs "-" c = false →
  HijriService.formatDate (a +:+ "-" +:+ b +:+ "-" +:+ c) = c +:+ "-" +:+ b +:+ "-" +:+ a.
Proof.
  intros Ha Hb Hc. unfold HijriService.formatDate.
  by rewrite (split_of_three a b c Ha Hb Hc).
Qed.

(* ================================================================== *)
(** * The calendar synchroniser *)
(* ================================================================== *)

(** A run touches nothing but the log of requests and the table, and
    the table only grows. *)
Lemma updateOfficialHijriCalendar_store (gregoYear : Z) (w : World) :
  let w' := (HijriService.updateOfficialHijriCalendar gregoYear w).2 in
  env w' = env w ∧ pool w' = pool w ∧ athan_calendar w' = athan_calendar w ∧
  hijri_calendar w ⊆ hijri_calendar w'.
Proof.
  rewrite updateOfficialHijriCalendar_eq. unfold HijriService.fetchMonthlyAnnouncements.
  pose proof (fetch_loop_store gregoYear (seqZ 1 12) [] w) as (Henv & Hpool & Htable & Hathan).
  destruct (for_each (HijriService.fetch_month gregoYear) (seqZ 1 12) [] w)
    as [[calendar|e] w1]; cbn [fst snd] in *; [|by rewrite Htable].
  destruct (Nat.eqb (List.length calendar) 0); cbn [snd]; [by rewrite Htable|].
  pose proof (upsert_loop_store calendar [] w1) as (Henv2 & Hpool2 & _ & Hathan2 & Hgrow).
  destruct (for_each HijriService.upsert_month calendar [] w1) as [[answer|e] w2];
    cbn [snd] in *; rewrite <-Htable; split_and!; first [congruence|exact Hgrow].
Qed.

(** Run in a world whose table holds every row a first run left, the
    synchroniser answers as the first run did and changes no row. *)
Lemma updateOfficialHijriCalendar_again (gregoYear : Z) (w w' : World) :
  env w' = env w → pool w' = pool w →
  hijri_calendar (HijriService.updateOfficialHijriCalendar gregoYear w).2 ⊆ hijri_calendar w' →
  (HijriService.updateOfficialHijriCalendar gregoYear w').1
  = (HijriService.updateOfficialHijriCalendar gregoYear w).1 ∧
  hijri_calendar (HijriService.updateOfficialHijriCalendar gregoYear w').2
  = hijri_calendar w'.
Proof.
  intros Henv Hpool. rewrite !updateOfficialHijriCalendar_eq.
  unfold HijriService.fetchMonthlyAnnouncements.
  pose proof (fetch_loop_store gregoYear (seqZ 1 12) [] w) as (Henv1 & Hpool1 & _).
  pose proof (fetch_loop_store gregoYear (seqZ 1 12) [] w') as (Henv1' & Hpool1' & Htable1' & _).
  pose proof (fetch_loop_env gregoYear (seqZ 1 12) [] w w' Henv) as Hfetch.
  destruct (for_each (HijriService.fetch_month gregoYear) (seqZ 1 12) [] w) as [fetched w1].
  destruct (for_each (HijriService.fetch_month gregoYear) (seqZ 1 12) [] w') as [fetched' w1'].
  cbn [fst snd] in *. subst fetched'.
  destruct fetched as [calendar|e]; [|done].
  destruct (Nat.eqb (List.length calendar) 0); [done|].
  assert (Henv' : env w1' = env w1) by congruence.
  assert (Hpool' : pool w1' = pool w1) by congruence.
  pose proof (upsert_loop_result calendar [] w1 w1' Henv' Hpool') as Hresult.
  pose proof (upsert_loop_again calendar [] [] w1 w1' Henv' Hpool') as Hagain.
  destruct (for_each HijriService.upsert_month calendar [] w1) as [looped w2].
  destruct (for_each HijriService.upsert_month calendar [] w1') as [looped' w2'].
  cbn [fst snd] in *. subst looped'. intros Hsub.
  assert (Htable : hijri_calendar w2' = hijri_calendar w').
  { rewrite <-Htable1'. apply Hagain. rewrite Htable1'.
    by destruct looped. }
  by destruct looped.
Qed.

(** C3, as the code has it.  The row of a month is keyed by the value
    sent for the [month] column, which is the reformatted Gregorian date
    of the first day returned for the month: after a run that answers, the
    table is the table before the run after the upserts of the answer's
    rows, each under its first component, and every such key is present.
    On a key that is present the upsert keeps the stored first and last
    day: no run changes a row that was there.  A second run for the same
    year answers as the first did and leaves the table exactly as the
    first run left it. *)
Theorem updateOfficialHijriCalendar_idempotent (gregoYear : Z) (w : World) :
  let run1 := HijriService.updateOfficialHijriCalendar gregoYear w in
  let run2 := HijriService.updateOfficialHijriCalendar gregoYear run1.2 in
  (∀ month row,
     hijri_calendar w !! month = Some row → hijri_calendar run1.2 !! month = Some row) ∧
  hijri_calendar run2.2 = hijri_calendar run1.2 ∧
  run2.1 = run1.1 ∧
  (∀ answer, run1.1 = Ok (Some answer) →
     hijri_calendar run1.2 = upserted answer (hijri_calendar w) ∧
     ∀ params, params ∈ answer → is_Some (hijri_calendar run1.2 !! params.1.1)) ∧
  (∀ params table row,
     table !! params.1.1 = Some row →
     HijriService.insert_on_duplicate_key_keep params table = table).
Proof.
  intros run1 run2.
  pose proof (updateOfficialHijriCalendar_store gregoYear w) as (Henv & Hpool & _ & Hgrow).
  fold run1 in Henv, Hpool, Hgrow.
  destruct (updateOfficialHijriCalendar_again gregoYear w run1.2 Henv Hpool)
    as [Hanswer Htable]; [done|].
  split_and!; try done.
  - intros month row Hrow. by eapply lookup_weaken.
  - intros answer. unfold run1. rewrite updateOfficialHijriCalendar_eq.
    unfold HijriService.fetchMonthlyAnnouncements.
    pose proof (fetch_loop_store gregoYear (seqZ 1 12) [] w) as (_ & _ & Htable1 & _).
    destruct (for_each (HijriService.fetch_month gregoYear) (seqZ 1 12) [] w)
      as [[calendar|e] w1]; [|done].
    destruct (Nat.eqb (List.length calendar) 0); [done|].
    destruct (for_each HijriService.upsert_month calendar [] w1)
      as [[first_answer|e] w2] eqn:Hloop; [|done].
    cbn [fst snd] in *. intros [= <-].
    apply upsert_loop_answer in Hloop as (rows & -> & _ & Hrows).
    rewrite app_nil_l, Hrows, Htable1. split; [done|].
    intros params Hin. by apply upserted_key.
  - intros params table row Hrow. apply insert_keep_present. eauto.
Qed.

(** C3 as stated fails: the table is not keyed by the month index.  After
    a run for 2024 from an empty table there is no row under the index 1;
    the row of January is under the date 2024-01-01. *)
Lemma hijri_calendar_key_is_a_date :
  let run := HijriService.updateOfficialHijriCalendar 2024 Sample.world in
  hijri_calendar run.2 !! "1" = None ∧
  hijri_calendar run.2 !! "2024-01-01" = Some ("1445-01-19", "1446-01-17") ∧
  dom (hijri_calendar run.2)
  = list_to_set ((λ month, "2024-" +:+ Sample.two month +:+ "-01") <$> seqZ 1 12).
Proof. by vm_compute. Qed.

(** C4.  For every year the synchroniser requests the months 1 to 12 in
    order.  When every month is answered with a day sequence whose first
    and last entries carry their dates, and the pool takes the rows, the
    answer is the list, in month order, of the twelve triples made of the
    first entry's Gregorian date, the first entry's Hijri date and the
    last entry's Hijri date, each reformatted by reversing its
    components (year-month-day becomes day-month-year).  The answer is the
    same whatever rows the table holds beforehand, that is whether each
    upsert wrote or skipped. *)
Theorem updateOfficialHijriCalendar_answer (gregoYear : Z) (w : World)
    (days : Z → list value) (firstDay lastDay : Z → value)
    (gregorianFirst hijriFirst hijriLast : Z → string) :
  pool w = true →
  (∀ month, 1 ≤ month ≤ 12 →
     upstream (env w) (GToHCalendar month gregoYear) = Some (days month) ∧
     head (days month) = Some (firstDay month) ∧
     last (days month) = Some (lastDay month) ∧
     HijriService.date_of (firstDay month) "gregorian" = Ok (VStr (gregorianFirst month)) ∧
     HijriService.date_of (firstDay month) "hijri" = Ok (VStr (hijriFirst month)) ∧
     HijriService.date_of (lastDay month) "hijri" = Ok (VStr (hijriLast month)) ∧
     hijri_calendar_accepts (env w)
       (HijriService.formatDate (gregorianFirst month))
       (HijriService.formatDate (hijriFirst month))
       (HijriService.formatDate (hijriLast month)) = true) →
  let answer :=
    (λ month, (HijriService.formatDate (gregorianFirst month),
               HijriService.formatDate (hijriFirst month),
               HijriService.formatDate (hijriLast month))) <$> seqZ 1 12 in
  let run := HijriService.updateOfficialHijriCalendar gregoYear w in
  run.1 = Ok (Some answer) ∧
  List.length answer = 12%nat ∧
  requests run.2 = requests w ++ ((λ month, GToHCalendar month gregoYear) <$> seqZ 1 12) ∧
  (∀ table,
     (HijriService.updateOfficialHijriCalendar gregoYear (with_hijri_calendar table w)).1
     = Ok (Some answer)) ∧
  (∀ year month day,
     occurs "-" year = false → occurs "-" month = false → occurs "-" day = false →
     HijriService.formatDate (year +:+ "-" +:+ month +:+ "-" +:+ day)
     = day +:+ "-" +:+ month +:+ "-" +:+ year).
Proof.
  intros Hpool Hmonths answer run.
  assert (Hrun : ∀ w', env w' = env w → pool w' = true →
            (HijriService.updateOfficialHijriCalendar gregoYear w').1 = Ok (Some answer) ∧
            requests (HijriService.updateOfficialHijriCalendar gregoYear w').2
            = requests w' ++ ((λ month, GToHCalendar month gregoYear) <$> seqZ 1 12)).
  { intros w' Henv Hpool'.
    rewrite (updateOfficialHijriCalendar_eq gregoYear w').
    unfold HijriService.fetchMonthlyAnnouncements.
    pose proof (fetch_loop_ok gregoYear days (seqZ 1 12) [] w') as Hfetch.
    pose proof (fetch_loop_store gregoYear (seqZ 1 12) [] w') as (Henv1 & Hpool1 & _).
    destruct (for_each (HijriService.fetch_month gregoYear) (seqZ 1 12) [] w')
      as [fetched w1].
    cbn [fst snd] in *. destruct Hfetch as [-> Hreq].
    { intros month [Hlo Hhi]%elem_of_seqZ. rewrite Henv.
      by destruct (Hmonths month) as (Hup & _); [lia|]. }
    rewrite app_nil_l, length_fmap, length_seqZ.
    change (Nat.eqb (Z.to_nat 12) 0) with false. cbn iota.
    pose proof (upsert_loop_store
                  ((λ month, (month, HijriService.boundary (days month))) <$> seqZ 1 12)
                  [] w1) as (_ & _ & Hreq2 & _).
    pose proof (upsert_loop_ok
                  ((λ month, (month, HijriService.boundary (days month))) <$> seqZ 1 12)
                  answer [] w1) as Hloop.
    destruct (for_each HijriService.upsert_month
                ((λ month, (month, HijriService.boundary (days month))) <$> seqZ 1 12) [] w1)
      as [looped w2].
    cbn [fst snd] in *. rewrite Hloop.
    - cbn [fst snd app]. split; [done|]. by rewrite Hreq2, Hreq.
    - congruence.
    - unfold answer. apply Forall2_fmap, Forall_Forall2_diag, Forall_forall.
      intros month [Hlo Hhi]%elem_of_seqZ. cbn [snd fst].
      destruct (Hmonths month) as (_ & Hhead & Hlast & Hg & Hf & Hl & Hacc); [lia|].
      rewrite Henv1, Henv. split; [|exact Hacc].
      unfold HijriService.month_params, HijriService.boundary.
      cbn [HijriService.first HijriService.last].
      rewrite (index_head _ _ Hhead), (index_last _ _ Hlast).
      by rewrite (formatDate_of_string _ _ _ Hg), (formatDate_of_string _ _ _ Hf),
        (formatDate_of_string _ _ _ Hl). }
  split_and!.
  - by apply Hrun.
  - unfold answer. by rewrite length_fmap, length_seqZ.
  - by apply Hrun.
  - intros table. by apply Hrun.
  - apply formatDate_three.
Qed.

Lemma updateOfficialHijriCalendar_answer_witness :
  (HijriService.updateOfficialHijriCalendar 2024 Sample.world).1
  = Ok (Some ((λ month, ("2024-" +:+ Sample.two month +:+ "-01",
                         "1445-" +:+ Sample.two month +:+ "-19",
                         "1446-" +:+ Sample.two month +:+ "-17")) <$> seqZ 1 12)).
Proof.
  refine (proj1 (updateOfficialHijriCalendar_answer 2024 Sample.world
    (λ month, [Sample.calendar_day ("01-" +:+ Sample.two month +:+ "-2024")
                                   ("19-" +:+ Sample.two month +:+ "-1445");
               Sample.calendar_day ("28-" +:+ Sample.two month +:+ "-2024")
                                   ("17-" +:+ Sample.two month +:+ "-1446")])
    (λ month, Sample.calendar_day ("01-" +:+ Sample.two month +:+ "-2024")
                                  ("19-" +:+ Sample.two month +:+ "-1445"))
    (λ month, Sample.calendar_day ("28-" +:+ Sample.two month +:+ "-2024")
                                  ("17-" +:+ Sample.two month +:+ "-1446"))
    (λ month, "01-" +:+ Sample.two month +:+ "-2024")
    (λ month, "19-" +:+ Sample.two month +:+ "-1445")
    (λ month, "17-" +:+ Sample.two month +:+ "-1446")
    eq_refl _)).
  intros month _. repeat split; reflexivity.
Defined.

(* ================================================================== *)
(** * Facts about JSON texts *)
(* ================================================================== *)

Lemma string_app_cons (x : ascii) (a b : string) : String x a +:+ b = String x (a +:+ b).
Proof. done. Qed.

Lemma string_app_assoc (a b c : string) : (a +:+ b) +:+ c = a +:+ (b +:+ c).
Proof. induction a as [|x a IH]; [done|]. by rewrite !string_app_cons, IH. Qed.

Lemma string_length_app (a b : string) :
  String.length (a +:+ b) = (String.length a + String.length b)%nat.
Proof.
  induction a as [|x a IH]; [done|].
  rewrite string_app_cons. cbn [String.length]. by rewrite IH.
Qed.

(** Reading one quoted code unit gives the code unit back. *)
Lemma unquote_body_char (c : ascii) (text : string) :
  JSON.unquote_body (JSON.quote_char c +:+ text)
  = JSON.cons_char c <$> JSON.unquote_body text.
Proof. by destruct c as [[] [] [] [] [] [] [] []]. Qed.

Lemma unquote_body_quote_body (s text : string) :
  JSON.unquote_body (JSON.quote_body s +:+ String JSON.dquote text) = Some (s, text).
Proof.
  induction s as [|c s IH].
  - done.
  - cbn [JSON.quote_body]. by rewrite string_app_assoc, unquote_body_char, IH.
Qed.

(** Reading a quoted string gives the string back, and the text after
    it. *)
Lemma unquote_quote (s text : string) :
  JSON.unquote (JSON.quote s +:+ text) = Some (s, text).
Proof.
  unfold JSON.quote. rewrite string_app_cons, string_app_assoc. cbn [JSON.unquote].
  change (Ascii.eqb JSON.dquote JSON.dquote) with true. cbn iota.
  apply unquote_body_quote_body.
Qed.

Lemma stringify_object_text (number_to_string : QArith_base.Q → string)
    (timings : list (string * string)) :
  JSON.stringify number_to_string (VObj (timings_object timings))
  = Some (object_text timings).
Proof.
  unfold object_text. cbn [JSON.stringify]. do 4 f_equal.
  induction timings as [|[k v] timings IH]; [done|].
  unfold timings_object in *. rewrite !fmap_cons. cbn [fst snd JSON.stringify].
  by rewrite IH.
Qed.

Lemma join_one (x glue : string) : join glue [Some x] = x.
Proof. done. Qed.

Lemma join_members_cons (kv kv' : string * string) (timings : list (string * string)) :
  join "," ((λ kv, Some (member kv)) <$> kv :: kv' :: timings)
  = member kv +:+ "," +:+ join "," ((λ kv, Some (member kv)) <$> kv' :: timings).
Proof. done. Qed.

Lemma parse_members_text (timings : list (string * string)) (kv : string * string)
    (fuel : nat) :
  (List.length timings < fuel)%nat →
  JSON.parse_members fuel
    (join "," ((λ kv, Some (member kv)) <$> kv :: timings) +:+ "}")
  = Some (kv :: timings).
Proof.
  revert kv fuel. induction timings as [|kv' timings IH]; intros [k v] fuel Hfuel.
  - destruct fuel as [|fuel]; [simpl in Hfuel; lia|].
    rewrite fmap_cons, fmap_nil, join_one. unfold member. cbn [fst snd].
    rewrite !string_app_assoc. cbn [JSON.parse_members].
    rewrite unquote_quote. cbn [mbind option_bind]. rewrite app_one, unquote_quote.
    done.
  - destruct fuel as [|fuel]; [simpl in Hfuel; lia|].
    rewrite join_members_cons.
    unfold member at 1. cbn [fst snd].
    rewrite !string_app_assoc. cbn [JSON.parse_members].
    rewrite unquote_quote. cbn [mbind option_bind]. rewrite app_one, unquote_quote.
    cbn [mbind option_bind]. rewrite app_one.
    rewrite IH by (simpl in Hfuel; lia). done.
Qed.

Lemma members_text_length (timings : list (string * string)) (kv : string * string) :
  (List.length timings
   < String.length (join "," ((λ kv, Some (member kv)) <$> kv :: timings) +:+ "}"))%nat.
Proof.
  revert kv. induction timings as [|kv' timings IH]; intros kv.
  - rewrite string_length_app. simpl. lia.
  - rewrite join_members_cons, !string_app_assoc, string_length_app, string_length_app.
    specialize (IH kv'). cbn [List.length String.length]. lia.
Qed.

Lemma members_text_head (timings : list (string * string)) (kv : string * string) :
  ∃ text, join "," ((λ kv, Some (member kv)) <$> kv :: timings) +:+ "}"
          = String JSON.dquote text.
Proof.
  destruct timings as [|kv' timings].
  - by eexists.
  - rewrite join_members_cons. by eexists.
Qed.

(** Reading the text of an object of strings gives its entries back. *)
Lemma parse_object_text (timings : list (string * string)) :
  JSON.parse_string_object (object_text timings) = Some timings.
Proof.
  destruct timings as [|kv timings]; [done|].
  unfold object_text. rewrite app_one.
  pose proof (members_text_length timings kv) as Hlen.
  pose proof (parse_members_text timings kv) as Hparse.
  destruct (members_text_head timings kv) as [text Htext].
  rewrite Htext in *. cbn [JSON.parse_string_object].
  by apply Hparse.
Qed.

(* ================================================================== *)
(** * insertData *)
(* ================================================================== *)

Lemma with_athan_calendar_id (w : World) : with_athan_calendar (athan_calendar w) w = w.
Proof. by destruct w. Qed.

Lemma insert_record_eq (athan_school_id city_id : Z) (record : value) (day : PrayerDay)
    (w : World) :
  normalised record day →
  DbService.insert_record athan_school_id city_id record () w
  = if athan_calendar_accepts (env w) (athan_calendar w) (row_of athan_school_id city_id day)
    then (Ok (), with_athan_calendar
                   (athan_calendar w ++ [row_of athan_school_id city_id day]) w)
    else (Throw PersistenceWriteFailed, w).
Proof.
  intros [Hdate Htimings].
  unfold DbService.insert_record, mbind, M_bind, lift. rewrite Hdate, Htimings.
  cbn [as_string]. unfold DbService.stringify. rewrite stringify_object_text.
  done.
Qed.

(** When the table takes every row, the loop of [insertData] appends the
    row of every record, in order, and changes nothing else. *)
Lemma insert_loop_ok (athan_school_id city_id : Z) (records : list value)
    (days : list PrayerDay) (w : World) :
  Forall2 normalised records days →
  accepted (env w) (athan_calendar w) (row_of athan_school_id city_id <$> days) = true →
  for_each (DbService.insert_record athan_school_id city_id) records () w
  = (Ok (), with_athan_calendar
              (athan_calendar w ++ (row_of athan_school_id city_id <$> days)) w).
Proof.
  intros Hrecords. revert w.
  induction Hrecords as [|record day records days Hrecord _ IH]; intros w Haccepted.
  - simpl. by rewrite app_nil_r, with_athan_calendar_id.
  - rewrite fmap_cons in *. cbn [accepted] in Haccepted.
    apply andb_true_iff in Haccepted as [Hrow Hrows].
    cbn [for_each]. unfold mbind, M_bind.
    rewrite (insert_record_eq _ _ _ _ _ Hrecord), Hrow.
    rewrite IH by exact Hrows. cbn [with_athan_calendar athan_calendar env].
    by rewrite <-app_assoc.
Qed.

(** C8.  With the pool initialised and a table that takes the rows,
    [insertData] inserts, for every record of the batch and in order, a
    row that carries the strategy and city identifiers, the record's date
    with its components reversed from day-month-year to year-month-day,
    and the text [JSON.stringify] gives for the timing map; read back,
    that text yields the timing map.  Nothing else is changed.  The date
    25-07-2024 is stored as 2024-07-25. *)
Theorem insertData_rows (strategyId cityId : Z) (records : list value)
    (days : list PrayerDay) (w : World) :
  pool w = true →
  Forall2 normalised records days →
  accepted (env w) (athan_calendar w) (row_of strategyId cityId <$> days) = true →
  let run := DbService.insertData strategyId cityId records w in
  let rows := row_of strategyId cityId <$> days in
  run.1 = Ok () ∧
  run.2 = with_athan_calendar (athan_calendar w ++ rows) w ∧
  athan_calendar run.2 = athan_calendar w ++ rows ∧
  Forall2 (λ day row,
             athan_school_id row = strategyId ∧
             city_id row = cityId ∧
             date row = DbService.formattedDate (day_date day) ∧
             (∀ d m y, split "-" (day_date day) = [d; m; y] →
                       date row = y +:+ "-" +:+ m +:+ "-" +:+ d) ∧
             JSON.stringify (number_to_string (env w))
               (VObj (timings_object (day_timings day))) = Some (data row) ∧
             JSON.parse_string_object (data row) = Some (day_timings day))
          days rows ∧
  DbService.formattedDate "25-07-2024" = "2024-07-25".
Proof.
  intros Hpool Hrecords Haccepted run rows.
  assert (Hrun : run = (Ok (), with_athan_calendar (athan_calendar w ++ rows) w)).
  { unfold run, DbService.insertData. rewrite Hpool. cbn [negb].
    by apply insert_loop_ok. }
  rewrite Hrun. cbn [fst snd]. split_and!; try done.
  unfold rows. apply Forall2_fmap_r, Forall_Forall2_diag, Forall_forall.
  intros day _. cbn [row_of athan_school_id city_id date data].
  split_and!; try done.
  - intros d m y Hparts.
    change (date (row_of strategyId cityId day))
      with (DbService.formattedDate (day_date day)).
    unfold DbService.formattedDate. by rewrite Hparts.
  - apply stringify_object_text.
  - apply parse_object_text.
Qed.

Lemma insertData_rows_witness :
  date <$> athan_calendar (DbService.insertData 4 9 Sample.records Sample.world).2
  = ["2024-07-25"] ∧
  JSON.parse_string_object <$>
    (data <$> athan_calendar (DbService.insertData 4 9 Sample.records Sample.world).2)
  = [Some Sample.timings].
Proof.
  pose proof (insertData_rows 4 9 Sample.records
                [{| day_date := "25-07-2024"; day_timings := Sample.timings |}]
                Sample.world eq_refl) as Hrows.
  destruct Hrows as (_ & _ & Htable & Hrow & _).
  - repeat constructor.
  - reflexivity.
  - rewrite Htable. split; [reflexivity|]. by vm_compute.
Defined.

(* ================================================================== *)
(** * Dates off the three-component shape *)
(* ================================================================== *)

Lemma split_join_parts (s : string) (parts : list string) :
  split "-" s = parts → s = join "-" (Some <$> parts).
Proof. intros <-. symmetry. apply (join_split "-"). Qed.

Lemma split_parts (s : string) (parts : list string) :
  split "-" s = parts → Forall (λ p, occurs "-" p = false) parts.
Proof. intros <-. apply split_parts_free. Qed.

Lemma split_lead (rest : string) : split "-" (String "-" rest) = EmptyString :: split "-" rest.
Proof. done. Qed.

(** What the two conversions make of a date of one or two components. *)
Lemma formatDate_one (s a : string) :
  split "-" s = [a] → HijriService.formatDate s = String "-" (String "-" a).
Proof. unfold HijriService.formatDate. by intros ->. Qed.

Lemma formatDate_two (s a b : string) :
  split "-" s = [a; b] → HijriService.formatDate s = String "-" (b +:+ "-" +:+ a).
Proof. unfold HijriService.formatDate. by intros ->. Qed.

Lemma formatDate_more (s a b c : string) (rest : list string) :
  split "-" s = a :: b :: c :: rest →
  HijriService.formatDate s = c +:+ "-" +:+ b +:+ "-" +:+ a.
Proof. unfold HijriService.formatDate. by intros ->. Qed.

Lemma formattedDate_more (s a b c : string) (rest : list string) :
  split "-" s = a :: b :: c :: rest →
  DbService.formattedDate s = c +:+ "-" +:+ b +:+ "-" +:+ a.
Proof. unfold DbService.formattedDate. by intros ->. Qed.

Lemma string_length_neq (a b : string) : String.length a ≠ String.length b → a ≠ b.
Proof. congruence. Qed.

(** X1.  [formatDate] applied twice gives the date back exactly on the
    dates of three components: with fewer components the second pass
    pads the date with separators, with more the components after the
    third are lost. *)
Theorem formatDate_twice_iff (s : string) :
  HijriService.formatDate (HijriService.formatDate s) = s
  ↔ List.length (split "-" s) = 3%nat.
Proof.
  destruct (split "-" s) as [|a [|b [|c [|d rest]]]] eqn:Hs.
  - by destruct (split_not_nil "-" s).
  - split; [|done]. intros Htwice. exfalso. revert Htwice.
    pose proof (split_parts s _ Hs) as Hfree. inversion_clear Hfree as [|?? Ha _].
    rewrite (formatDate_one s a Hs).
    assert (Hsplit : split "-" (String "-" (String "-" a)) = [EmptyString; EmptyString; a]).
    { by rewrite !split_lead, (split_free "-" a Ha). }
    rewrite (formatDate_more _ _ _ _ _ Hsplit), (split_join_parts s _ Hs).
    apply string_length_neq. cbn [fmap list_fmap join default from_option id].
    rewrite !string_length_app. simpl. lia.
  - split; [|done]. intros Htwice. exfalso. revert Htwice.
    pose proof (split_parts s _ Hs) as Hfree.
    inversion_clear Hfree as [|?? Ha Hfree']. inversion_clear Hfree' as [|?? Hb _].
    rewrite (formatDate_two s a b Hs).
    assert (Hsplit : split "-" (String "-" (b +:+ "-" +:+ a)) = [EmptyString; b; a]).
    { by rewrite split_lead, app_one, (split_app "-" b _ Hb), (split_free "-" a Ha). }
    rewrite (formatDate_more _ _ _ _ _ Hsplit), (split_join_parts s _ Hs).
    apply string_length_neq. cbn [fmap list_fmap join default from_option id].
    rewrite !string_length_app. simpl. lia.
  - split; [intros _; done|intros _].
    destruct (split_three s a b c Hs) as (-> & Ha & Hb & Hc).
    by rewrite (formatDate_three a b c Ha Hb Hc), (formatDate_three c b a Hc Hb Ha).
  - split; [|done]. intros Htwice. exfalso. revert Htwice.
    pose proof (split_parts s _ Hs) as Hfree.
    inversion_clear Hfree as [|?? Ha Hfree1]. inversion_clear Hfree1 as [|?? Hb Hfree2].
    inversion_clear Hfree2 as [|?? Hc _].
    rewrite (formatDate_more s a b c _ Hs), (formatDate_three c b a Hc Hb Ha).
    rewrite (split_join_parts s _ Hs).
    apply string_length_neq. rewrite !fmap_cons, !join_cons.
    cbn [default from_option id]. rewrite !string_length_app. simpl.
    destruct (join "-" (Some d :: (Some <$> rest))); simpl; lia.
Qed.

(** X2.  The conversion of [insertData] and [formatDate] agree exactly on
    the dates of three components or more.  On a date of one or two
    components [insertData] stores the word undefined for each missing
    component, where [formatDate] leaves it empty. *)
Theorem formattedDate_agrees_iff (s : string) :
  (DbService.formattedDate s = HijriService.formatDate s
   ↔ (3 ≤ List.length (split "-" s))%nat) ∧
  (∀ a, split "-" s = [a] →
     DbService.formattedDate s = "undefined-undefined-" +:+ a) ∧
  (∀ a b, split "-" s = [a; b] →
     DbService.formattedDate s = "undefined-" +:+ b +:+ "-" +:+ a).
Proof.
  split_and!.
  - destruct (split "-" s) as [|a [|b [|c rest]]] eqn:Hs.
    + by destruct (split_not_nil "-" s).
    + rewrite (formatDate_one s a Hs). unfold DbService.formattedDate. rewrite Hs.
      simpl. split; [done|lia].
    + rewrite (formatDate_two s a b Hs). unfold DbService.formattedDate. rewrite Hs.
      simpl. split; [done|lia].
    + rewrite (formatDate_more s a b c rest Hs), (formattedDate_more s a b c rest Hs).
      simpl. split; [lia|done].
  - intros a Hs. unfold DbService.formattedDate. by rewrite Hs.
  - intros a b Hs. unfold DbService.formattedDate. by rewrite Hs.
Qed.

(* ================================================================== *)
(** * The calendar synchroniser when something fails *)
(* ================================================================== *)

Lemma formatDate_of_throw (day : value) (calendar : string) (e : error) :
  HijriService.formatDate_of day calendar = Throw e → e = TypeError.
Proof.
  unfold HijriService.formatDate_of, HijriService.date_of.
  destruct (getProp day calendar) as [day_calendar|e'] eqn:Hcal; cbn [mbind result_bind];
    [|intros [= <-]; by eapply getProp_throw].
  destruct (getProp day_calendar "date") as [date|e'] eqn:Hdate; cbn [mbind result_bind];
    [|intros [= <-]; by eapply getProp_throw].
  by destruct date; intros [= <-].
Qed.

Lemma month_params_throw (b : HijriService.Boundary) (e : error) :
  HijriService.month_params b = Throw e → e = TypeError.
Proof.
  unfold HijriService.month_params.
  destruct (HijriService.formatDate_of (HijriService.first b) "gregorian") eqn:H0;
    cbn [mbind result_bind]; [|intros [= <-]; by eapply formatDate_of_throw].
  destruct (HijriService.formatDate_of (HijriService.first b) "hijri") eqn:H1;
    cbn [mbind result_bind]; [|intros [= <-]; by eapply formatDate_of_throw].
  destruct (HijriService.formatDate_of (HijriService.last b) "hijri") eqn:H2;
    cbn [mbind result_bind]; [done|intros [= <-]; by eapply formatDate_of_throw].
Qed.

(** An empty day sequence has no first day to read a date from. *)
Lemma month_params_empty : HijriService.month_params (HijriService.boundary []) = Throw TypeError.
Proof. done. Qed.

Section FetchStops.

Variable GregoYear : Z.

Lemma fetch_loop_stop (pre post : list Z) (k : Z)
    (results : list (Z * HijriService.Boundary)) (w : World) :
  (∀ month, month ∈ pre → is_Some (upstream (env w) (GToHCalendar month GregoYear))) →
  upstream (env w) (GToHCalendar k GregoYear) = None →
  let r := for_each (HijriService.fetch_month GregoYear) (pre ++ k :: post) results w in
  r.1 = Throw UpstreamCallFailed ∧
  requests r.2 = requests w ++ ((λ month, GToHCalendar month GregoYear) <$> pre ++ [k]).
Proof.
  revert results w. induction pre as [|month pre IH]; intros results w Hpre Hk.
  - cbn [app for_each]. unfold mbind, M_bind. by rewrite fetch_month_eq, Hk.
  - cbn [app for_each]. unfold mbind, M_bind. rewrite fetch_month_eq.
    destruct (Hpre month) as [days Hdays]; [by left|]. rewrite Hdays.
    destruct (IH (results ++ [(month, HijriService.boundary days)])
                 (log_request (GToHCalendar month GregoYear) w)) as [Hr Hreq].
    { intros m Hm. apply Hpre. by right. }
    { exact Hk. }
    cbn zeta. rewrite Hr, Hreq. cbn [log_request requests].
    by rewrite <-!app_assoc.
Qed.

Lemma fetch_loop_length (months : list Z) (results calendar : list (Z * HijriService.Boundary))
    (w w' : World) :
  for_each (HijriService.fetch_month GregoYear) months results w = (Ok calendar, w') →
  List.length calendar = (List.length results + List.length months)%nat ∧
  requests w' = requests w ++ ((λ month, GToHCalendar month GregoYear) <$> months).
Proof.
  revert results w. induction months as [|month months IH]; intros results w.
  - intros [= <- <-]. simpl. split; [lia|by rewrite app_nil_r].
  - cbn [for_each]. unfold mbind, M_bind. rewrite fetch_month_eq.
    destruct (upstream (env w) (GToHCalendar month GregoYear)); [|done].
    intros [Hlen Hreq]%IH. rewrite length_app in Hlen. simpl in *.
    split; [lia|]. by rewrite Hreq, <-app_assoc.
Qed.

End FetchStops.

(** The upsert loop stops at the first month whose row cannot be computed
    or is refused; the rows of the months before it stay written. *)
Lemma upsert_loop_stop (pre post : list (Z * HijriService.Boundary))
    (entry : Z * HijriService.Boundary) (rows answer : list (string * string * string))
    (e : error) (w : World) :
  pool w = true →
  Forall2 (λ entry params,
             HijriService.month_params entry.2 = Ok params ∧
             hijri_calendar_accepts (env w) params.1.1 params.1.2 params.2 = true)
          pre rows →
  (HijriService.month_params entry.2 = Throw e ∨
   ∃ params, HijriService.month_params entry.2 = Ok params ∧
             hijri_calendar_accepts (env w) params.1.1 params.1.2 params.2 = false ∧
             e = PersistenceWriteFailed) →
  let r := for_each HijriService.upsert_month (pre ++ entry :: post) answer w in
  r.1 = Throw e ∧ hijri_calendar r.2 = upserted rows (hijri_calendar w).
Proof.
  intros Hpool Hrows Hentry. remember (env w) as environment eqn:He.
  revert answer w Hpool He.
  induction Hrows as [|first_entry params pre rows [Hparams Haccepts] _ IH];
    intros answer w Hpool ->.
  - cbn [app for_each]. unfold mbind, M_bind. rewrite upsert_month_eq.
    destruct Hentry as [->|(params & -> & Hrefused & ->)]; [done|].
    by rewrite Hpool, Hrefused.
  - cbn [app for_each]. unfold mbind, M_bind.
    rewrite upsert_month_eq, Hparams, Hpool, Haccepts. cbn [negb].
    by apply IH.
Qed.

Lemma months_split (k : Z) :
  1 ≤ k ≤ 12 → seqZ 1 12 = seqZ 1 (k - 1) ++ k :: seqZ (k + 1) (12 - k).
Proof.
  intros Hk. replace 12 with ((k - 1) + (12 - k + 1)) at 1 by lia.
  rewrite seqZ_app by lia. f_equal.
  rewrite seqZ_cons by lia. f_equal; [lia|]. f_equal; lia.
Qed.

Lemma months_upto (k : Z) : 1 ≤ k → seqZ 1 (k - 1) ++ [k] = seqZ 1 k.
Proof.
  intros Hk. replace k with ((k - 1) + 1) at 3 by lia.
  rewrite seqZ_app by lia. f_equal.
  rewrite seqZ_cons, seqZ_nil by lia. f_equal. lia.
Qed.

(** X3.  When the upstream fails on month [k], the months before it having
    been answered, the synchroniser stops there with the failure of the
    upstream call: it has requested the months 1 to [k] and no other, and
    it has written nothing, since no row is sent before all twelve months
    are fetched. *)
Theorem updateOfficialHijriCalendar_upstream_failure (gregoYear k : Z) (w : World) :
  1 ≤ k ≤ 12 →
  (∀ month, 1 ≤ month < k → is_Some (upstream (env w) (GToHCalendar month gregoYear))) →
  upstream (env w) (GToHCalendar k gregoYear) = None →
  let run := HijriService.updateOfficialHijriCalendar gregoYear w in
  run.1 = Throw UpstreamCallFailed ∧
  requests run.2 = requests w ++ ((λ month, GToHCalendar month gregoYear) <$> seqZ 1 k) ∧
  hijri_calendar run.2 = hijri_calendar w ∧
  athan_calendar run.2 = athan_calendar w.
Proof.
  intros Hk Hbefore Hfails run. unfold run.
  rewrite updateOfficialHijriCalendar_eq. unfold HijriService.fetchMonthlyAnnouncements.
  pose proof (fetch_loop_store gregoYear (seqZ 1 12) [] w) as (_ & _ & Htable & Hathan).
  rewrite (months_split k Hk) in *.
  destruct (fetch_loop_stop gregoYear (seqZ 1 (k - 1)) (seqZ (k + 1) (12 - k)) k [] w)
    as [Hr Hreq]; [|done|].
  { intros month [Hlo Hhi]%elem_of_seqZ. apply Hbefore. lia. }
  destruct (for_each (HijriService.fetch_month gregoYear)
              (seqZ 1 (k - 1) ++ k :: seqZ (k + 1) (12 - k)) [] w) as [fetched w1].
  cbn [fst snd] in *. subst fetched. cbn [fst snd].
  split_and!; try done.
  by rewrite Hreq, months_upto by lia.
Qed.

Lemma updateOfficialHijriCalendar_upstream_failure_witness :
  (HijriService.updateOfficialHijriCalendar 2025 Sample.world).1 = Throw UpstreamCallFailed ∧
  requests (HijriService.updateOfficialHijriCalendar 2025 Sample.world).2
  = [GToHCalendar 1 2025] ∧
  hijri_calendar (HijriService.updateOfficialHijriCalendar 2025 Sample.world).2 = ∅.
Proof.
  destruct (updateOfficialHijriCalendar_upstream_failure 2025 1 Sample.world)
    as (Hr & Hreq & Htable & _).
  - lia.
  - intros month Hmonth. lia.
  - reflexivity.
  - exact (conj Hr (conj Hreq Htable)).
Defined.

(** X4.  The synchroniser never takes its early return: its result is
    never the bare [undefined].  Whenever it answers, the pool was
    initialised, all twelve months were requested, in order, and the
    answer holds exactly twelve rows. *)
Theorem updateOfficialHijriCalendar_answers_twelve (gregoYear : Z) (w : World) :
  let run := HijriService.updateOfficialHijriCalendar gregoYear w in
  run.1 ≠ Ok None ∧
  (∀ answer, run.1 = Ok (Some answer) →
     List.length answer = 12%nat ∧
     pool w = true ∧
     requests run.2
     = requests w ++ ((λ month, GToHCalendar month gregoYear) <$> seqZ 1 12)).
Proof.
  intros run. unfold run. rewrite updateOfficialHijriCalendar_eq.
  unfold HijriService.fetchMonthlyAnnouncements.
  pose proof (fetch_loop_store gregoYear (seqZ 1 12) [] w) as (_ & Hpool & _).
  destruct (for_each (HijriService.fetch_month gregoYear) (seqZ 1 12) [] w)
    as [[calendar|e] w1] eqn:Hfetch; [|done].
  apply fetch_loop_length in Hfetch as [Hlen Hreq].
  change (List.length (seqZ 1 12)) with 12%nat in Hlen. simpl in Hlen, Hpool.
  destruct calendar as [|entry calendar]; [done|]. cbn [List.length Nat.eqb].
  pose proof (upsert_loop_store (entry :: calendar) [] w1) as (_ & _ & Hreq2 & _).
  destruct (for_each HijriService.upsert_month (entry :: calendar) [] w1)
    as [[answer|e] w2] eqn:Hloop; [|done].
  cbn [fst snd] in *. split; [done|]. intros ? [= <-].
  pose proof Hloop as (rows & -> & Hrows & _)%upsert_loop_answer.
  apply Forall2_length in Hrows. rewrite app_nil_l.
  split_and!; [simpl in *; lia| |by rewrite Hreq2, Hreq].
  revert Hloop. cbn [for_each]. unfold mbind, M_bind. rewrite upsert_month_eq.
  destruct (HijriService.month_params entry.2); [|done].
  rewrite <-Hpool. by destruct (pool w1).
Qed.

(** X5.  The synchroniser writes month by month and does not undo: when
    month [k] is the first whose row cannot be sent, because the upstream
    answered it with an empty day sequence (a type error) or because the
    statement is refused, the run fails with that error after all twelve
    requests, and the table holds the rows of the months 1 to [k]-1 on
    top of what it held. *)
Theorem updateOfficialHijriCalendar_partial_write (gregoYear k : Z) (w : World)
    (days : Z → list value) (rows : Z → string * string * string) (e : error) :
  pool w = true →
  1 ≤ k ≤ 12 →
  (∀ month, 1 ≤ month ≤ 12 →
     upstream (env w) (GToHCalendar month gregoYear) = Some (days month)) →
  (∀ month, 1 ≤ month < k →
     HijriService.month_params (HijriService.boundary (days month)) = Ok (rows month) ∧
     hijri_calendar_accepts (env w) (rows month).1.1 (rows month).1.2 (rows month).2 = true) →
  (days k = [] ∧ e = TypeError ∨
   HijriService.month_params (HijriService.boundary (days k)) = Ok (rows k) ∧
   hijri_calendar_accepts (env w) (rows k).1.1 (rows k).1.2 (rows k).2 = false ∧
   e = PersistenceWriteFailed) →
  let run := HijriService.updateOfficialHijriCalendar gregoYear w in
  run.1 = Throw e ∧
  hijri_calendar run.2 = upserted (rows <$> seqZ 1 (k - 1)) (hijri_calendar w) ∧
  requests run.2 = requests w ++ ((λ month, GToHCalendar month gregoYear) <$> seqZ 1 12).
Proof.
  intros Hpool Hk Hdays Hrows Hstop run. unfold run.
  rewrite updateOfficialHijriCalendar_eq. unfold HijriService.fetchMonthlyAnnouncements.
  pose proof (fetch_loop_ok gregoYear days (seqZ 1 12) [] w) as Hfetch.
  remember ((λ month, GToHCalendar month gregoYear) <$> seqZ 1 12) as all_requests.
  pose proof (fetch_loop_store gregoYear (seqZ 1 12) [] w) as (Henv1 & Hpool1 & Htable1 & _).
  destruct (for_each (HijriService.fetch_month gregoYear) (seqZ 1 12) [] w) as [fetched w1].
  cbn [fst snd] in *. destruct Hfetch as [-> Hreq].
  { intros month [Hlo Hhi]%elem_of_seqZ. apply Hdays. lia. }
  rewrite app_nil_l, length_fmap, length_seqZ.
  change (Nat.eqb (Z.to_nat 12) 0) with false. cbn iota.
  rewrite (months_split k Hk), fmap_app, fmap_cons.
  pose proof (upsert_loop_store
                (((λ month, (month, HijriService.boundary (days month))) <$> seqZ 1 (k - 1)) ++
                 (k, HijriService.boundary (days k)) ::
                 ((λ month, (month, HijriService.boundary (days month))) <$>
                    seqZ (k + 1) (12 - k))) [] w1) as (_ & _ & Hreq2 & _).
  destruct (upsert_loop_stop
              ((λ month, (month, HijriService.boundary (days month))) <$> seqZ 1 (k - 1))
              ((λ month, (month, HijriService.boundary (days month))) <$> seqZ (k + 1) (12 - k))
              (k, HijriService.boundary (days k)) (rows <$> seqZ 1 (k - 1)) [] e w1)
    as [Hr Htable].
  { congruence. }
  { apply Forall2_fmap, Forall_Forall2_diag, Forall_forall.
    intros month [Hlo Hhi]%elem_of_seqZ. rewrite Henv1. apply Hrows. lia. }
  { cbn [snd]. rewrite Henv1.
    destruct Hstop as [[Hempty ->]|(Hparams & Hrefused & ->)].
    - left. by rewrite Hempty.
    - right. by exists (rows k). }
  cbn zeta in Hreq2, Hr, Htable.
  destruct (for_each HijriService.upsert_month _ [] w1) as [looped w2].
  cbn [fst snd] in *. subst looped. cbn [fst snd].
  split_and!; [done|by rewrite Htable, Htable1|by rewrite Hreq2, Hreq].
Qed.

Lemma updateOfficialHijriCalendar_partial_write_witness :
  (HijriService.updateOfficialHijriCalendar 2024 Scenario.march_empty_world).1
  = Throw TypeError ∧
  hijri_calendar (HijriService.updateOfficialHijriCalendar 2024 Scenario.march_empty_world).2
  = upserted [Scenario.sample_row 1; Scenario.sample_row 2] ∅.
Proof.
  destruct (updateOfficialHijriCalendar_partial_write 2024 3 Scenario.march_empty_world
              (λ month, if month =? 3 then []
                        else [Sample.calendar_day ("01-" +:+ Sample.two month +:+ "-2024")
                                                  ("19-" +:+ Sample.two month +:+ "-1445");
                              Sample.calendar_day ("28-" +:+ Sample.two month +:+ "-2024")
                                                  ("17-" +:+ Sample.two month +:+ "-1446")])
              Scenario.sample_row TypeError) as (Hr & Htable & _).
  - reflexivity.
  - lia.
  - intros month _. simpl. by destruct (month =? 3).
  - intros month Hmonth.
    assert (month = 1 ∨ month = 2) as [-> | ->] by lia; split; reflexivity.
  - left. split; reflexivity.
  - exact (conj Hr Htable).
Defined.

(** The only failure of the fetching loop is that of the upstream call. *)
Lemma fetch_loop_throw (GregoYear : Z) (months : list Z)
    (results : list (Z * HijriService.Boundary)) (w : World) (e : error) :
  (for_each (HijriService.fetch_month GregoYear) months results w).1 = Throw e →
  e = UpstreamCallFailed.
Proof.
  revert results w. induction months as [|month months IH]; intros results w; [done|].
  cbn [for_each]. unfold mbind, M_bind. rewrite fetch_month_eq.
  destruct (upstream (env w) (GToHCalendar month GregoYear)); [apply IH|].
  by intros [= <-].
Qed.

(** X6.  Before the pool is initialised the synchroniser writes nothing
    and never answers.  When the upstream answers all twelve months it
    still issues the twelve requests first and then fails with a type
    error, not with the error the other services raise for a missing pool. *)
Theorem updateOfficialHijriCalendar_without_pool (gregoYear : Z) (w : World) :
  pool w = false →
  let run := HijriService.updateOfficialHijriCalendar gregoYear w in
  hijri_calendar run.2 = hijri_calendar w ∧
  (∃ e, run.1 = Throw e ∧ e ≠ StorageUnavailable) ∧
  ((∀ month, 1 ≤ month ≤ 12 → is_Some (upstream (env w) (GToHCalendar month gregoYear))) →
   run.1 = Throw TypeError ∧
   requests run.2 = requests w ++ ((λ month, GToHCalendar month gregoYear) <$> seqZ 1 12)).
Proof.
  intros Hpool run. unfold run.
  rewrite updateOfficialHijriCalendar_eq. unfold HijriService.fetchMonthlyAnnouncements.
  pose proof (fetch_loop_store gregoYear (seqZ 1 12) [] w) as (_ & Hpool1 & Htable1 & _).
  pose proof (λ pre k post, fetch_loop_stop gregoYear pre post k [] w) as Hstop.
  destruct (for_each (HijriService.fetch_month gregoYear) (seqZ 1 12) [] w)
    as [[calendar|e] w1] eqn:Hfetch; cbn [fst snd] in *.
  - apply fetch_loop_length in Hfetch as [Hlen Hreq].
    change (List.length (seqZ 1 12)) with 12%nat in Hlen.
    destruct calendar as [|entry calendar]; [done|]. cbn [List.length Nat.eqb].
    assert (Hloop : ∃ e, e = TypeError ∧
              for_each HijriService.upsert_month (entry :: calendar) [] w1 = (Throw e, w1)).
    { exists TypeError. split; [done|].
      cbn [for_each]. unfold mbind, M_bind. rewrite upsert_month_eq.
      destruct (HijriService.month_params entry.2) as [params|e] eqn:Hparams.
      - by rewrite Hpool1, Hpool.
      - by rewrite (month_params_throw _ _ Hparams). }
    destruct Hloop as (e & -> & ->). cbn [fst snd].
    split_and!; [done|by exists TypeError|]. intros _. split; [done|by rewrite Hreq].
  - split_and!; [done| |].
    + exists e. split; [done|].
      rewrite (fetch_loop_throw gregoYear (seqZ 1 12) [] w e); [done|by rewrite Hfetch].
    + intros Hall. exfalso.
      assert (Hsome : ∀ month, month ∈ seqZ 1 12 →
                upstream (env w) (GToHCalendar month gregoYear)
                = Some (default [] (upstream (env w) (GToHCalendar month gregoYear)))).
      { intros month [Hlo Hhi]%elem_of_seqZ.
        destruct (Hall month) as [days ->]; [lia|done]. }
      destruct (fetch_loop_ok gregoYear _ (seqZ 1 12) [] w Hsome) as [Hok _].
      by rewrite Hfetch in Hok.
Qed.

Lemma updateOfficialHijriCalendar_without_pool_witness :
  (HijriService.updateOfficialHijriCalendar 2024 Scenario.cold_world).1 = Throw TypeError ∧
  hijri_calendar (HijriService.updateOfficialHijriCalendar 2024 Scenario.cold_world).2 = ∅.
Proof.
  destruct (updateOfficialHijriCalendar_without_pool 2024 Scenario.cold_world eq_refl)
    as (Htable & _ & Hall).
  destruct Hall as [Hr _].
  - intros month _. eexists. reflexivity.
  - exact (conj Hr Htable).
Defined.

(* ================================================================== *)
(** * insertData when something fails *)
(* ================================================================== *)

(** One record either fails and leaves the world as it was, or appends one
    row that carries the two identifiers. *)
Lemma insert_record_cases (strategyId cityId : Z) (record : value) (w : World) :
  (∃ e, DbService.insert_record strategyId cityId record () w = (Throw e, w) ∧
        (e = TypeError ∨ e = PersistenceWriteFailed)) ∨
  (∃ row, DbService.insert_record strategyId cityId record () w
          = (Ok (), with_athan_calendar (athan_calendar w ++ [row]) w) ∧
          athan_school_id row = strategyId ∧ city_id row = cityId).
Proof.
  unfold DbService.insert_record, mbind, M_bind, lift.
  destruct (getProp record "date") as [date|e] eqn:Hdate.
  2:{ left. exists e. apply getProp_throw in Hdate. auto. }
  destruct (getProp record "timings") as [timings|e] eqn:Htimings.
  2:{ left. exists e. apply getProp_throw in Htimings. auto. }
  destruct (as_string date) as [s|e] eqn:Hs.
  2:{ left. exists e. destruct date; simplify_eq/=; auto. }
  unfold DbService.stringify.
  destruct (JSON.stringify (number_to_string (env w)) timings) as [blob|].
  2:{ left. exists TypeError. auto. }
  unfold DbService.execute.
  destruct (athan_calendar_accepts (env w) (athan_calendar w) _) eqn:Haccepts.
  - right. eexists. split; [reflexivity|done].
  - left. exists PersistenceWriteFailed. auto.
Qed.

(** A record without a string for date fails with a type error. *)
Lemma insert_record_no_date (strategyId cityId : Z) (record : value) (w : World) :
  (∀ s, getProp record "date" ≠ Ok (VStr s)) →
  DbService.insert_record strategyId cityId record () w = (Throw TypeError, w).
Proof.
  intros Hdate. unfold DbService.insert_record, mbind, M_bind, lift.
  destruct (getProp record "date") as [date|e] eqn:Hget.
  2:{ by rewrite (getProp_throw _ _ _ Hget). }
  destruct (getProp record "timings") as [timings|e] eqn:Htimings.
  2:{ by rewrite (getProp_throw _ _ _ Htimings). }
  destruct date; try done. by destruct (Hdate s).
Qed.

Lemma insert_loop_stop (strategyId cityId : Z) (good rest : list value) (bad : value)
    (days : list PrayerDay) (e : error) (w : World) :
  Forall2 normalised good days →
  accepted (env w) (athan_calendar w) (row_of strategyId cityId <$> days) = true →
  ((∀ s, getProp bad "date" ≠ Ok (VStr s)) ∧ e = TypeError ∨
   ∃ day, normalised bad day ∧
          athan_calendar_accepts (env w)
            (athan_calendar w ++ (row_of strategyId cityId <$> days))
            (row_of strategyId cityId day) = false ∧
          e = PersistenceWriteFailed) →
  for_each (DbService.insert_record strategyId cityId) (good ++ bad :: rest) () w
  = (Throw e, with_athan_calendar
                (athan_calendar w ++ (row_of strategyId cityId <$> days)) w).
Proof.
  intros Hgood. revert w.
  induction Hgood as [|record day good days Hrecord _ IH]; intros w Haccepted Hbad.
  - cbn [app for_each fmap list_fmap]. unfold mbind, M_bind.
    rewrite app_nil_r, with_athan_calendar_id.
    destruct Hbad as [[Hdate ->]|(day & Hday & Hrefused & ->)].
    + by rewrite insert_record_no_date.
    + rewrite (insert_record_eq _ _ _ _ _ Hday).
      cbn [fmap list_fmap] in Hrefused. rewrite app_nil_r in Hrefused. by rewrite Hrefused.
  - rewrite fmap_cons in *. cbn [accepted] in Haccepted.
    apply andb_true_iff in Haccepted as [Hrow Hrows].
    cbn [app for_each]. unfold mbind, M_bind.
    rewrite (insert_record_eq _ _ _ _ _ Hrecord), Hrow.
    rewrite IH; [|exact Hrows|].
    + cbn [with_athan_calendar athan_calendar env]. by rewrite <-app_assoc.
    + cbn [with_athan_calendar athan_calendar env]. rewrite <-app_assoc. exact Hbad.
Qed.

(** X7.  [insertData] sends one statement a record and undoes nothing:
    when a record has no string for date (a type error) or its row is
    refused, the batch stops with that error, the rows of the records
    before it stay inserted and no row of a later record is. *)
Theorem insertData_partial_batch (strategyId cityId : Z) (good rest : list value)
    (bad : value) (days : list PrayerDay) (e : error) (w : World) :
  pool w = true →
  Forall2 normalised good days →
  accepted (env w) (athan_calendar w) (row_of strategyId cityId <$> days) = true →
  ((∀ s, getProp bad "date" ≠ Ok (VStr s)) ∧ e = TypeError ∨
   ∃ day, normalised bad day ∧
          athan_calendar_accepts (env w)
            (athan_calendar w ++ (row_of strategyId cityId <$> days))
            (row_of strategyId cityId day) = false ∧
          e = PersistenceWriteFailed) →
  let run := DbService.insertData strategyId cityId (good ++ bad :: rest) w in
  run.1 = Throw e ∧
  athan_calendar run.2 = athan_calendar w ++ (row_of strategyId cityId <$> days).
Proof.
  intros Hpool Hgood Haccepted Hbad run. unfold run, DbService.insertData.
  rewrite Hpool. cbn [negb].
  by rewrite (insert_loop_stop _ _ _ _ _ _ _ _ Hgood Haccepted Hbad).
Qed.

Lemma insertData_partial_batch_witness :
  (DbService.insertData 4 9
     (Sample.records ++ VObj [("timings", VObj [])] :: Sample.records) Sample.world).1
  = Throw TypeError ∧
  date <$> athan_calendar
    (DbService.insertData 4 9
       (Sample.records ++ VObj [("timings", VObj [])] :: Sample.records) Sample.world).2
  = ["2024-07-25"].
Proof.
  destruct (insertData_partial_batch 4 9 Sample.records Sample.records
              (VObj [("timings", VObj [])])
              [{| day_date := "25-07-2024"; day_timings := Sample.timings |}]
              TypeError Sample.world eq_refl) as [Hr Htable].
  - repeat constructor.
  - reflexivity.
  - left. split; [|done]. intros s. discriminate.
  - rewrite Htable. exact (conj Hr eq_refl).
Defined.

(** X8.  Whatever the batch, [insertData] only appends to the calendar
    table: it leaves the stored rows, the other table, the pool and the
    log of requests as they were, appends at most one row a record, each
    with the two identifiers it was given, and one for every record when
    it succeeds.  Without an initialised pool it fails with
    [StorageUnavailable] before it reads the batch. *)
Theorem insertData_appends (strategyId cityId : Z) (records : list value) (w : World) :
  let run := DbService.insertData strategyId cityId records w in
  env run.2 = env w ∧ pool run.2 = pool w ∧ requests run.2 = requests w ∧
  hijri_calendar run.2 = hijri_calendar w ∧
  (∃ rows,
     athan_calendar run.2 = athan_calendar w ++ rows ∧
     (List.length rows ≤ List.length records)%nat ∧
     Forall (λ row, athan_school_id row = strategyId ∧ city_id row = cityId) rows ∧
     (run.1 = Ok () → pool w = true ∧ List.length rows = List.length records)) ∧
  (pool w = false → run = (Throw StorageUnavailable, w)).
Proof.
  intros run. unfold run, DbService.insertData. clear run.
  destruct (pool w) eqn:Hpool; cbn [negb].
  2:{ split_and!; try done. exists []. rewrite app_nil_r. split_and!; try done.
      simpl. lia. }
  assert (Hloop : ∀ w, let r := for_each (DbService.insert_record strategyId cityId) records () w in
            env r.2 = env w ∧ pool r.2 = pool w ∧ requests r.2 = requests w ∧
            hijri_calendar r.2 = hijri_calendar w ∧
            ∃ rows,
              athan_calendar r.2 = athan_calendar w ++ rows ∧
              (List.length rows ≤ List.length records)%nat ∧
              Forall (λ row, athan_school_id row = strategyId ∧ city_id row = cityId) rows ∧
              (r.1 = Ok () → List.length rows = List.length records)).
  { clear w Hpool. induction records as [|record records IH]; intros w.
    - simpl. split_and!; try done. exists []. by rewrite app_nil_r.
    - cbn [for_each]. unfold mbind, M_bind.
      destruct (insert_record_cases strategyId cityId record w)
        as [(e & -> & _)|(row & -> & Hs & Hc)].
      + simpl. split_and!; try done. exists []. rewrite app_nil_r.
        split_and!; try done. simpl. lia.
      + destruct (IH (with_athan_calendar (athan_calendar w ++ [row]) w))
          as (Henv & Hp & Hreq & Hh & rows & Htable & Hlen & Hids & Hok).
        destruct (for_each (DbService.insert_record strategyId cityId) records ()
                    (with_athan_calendar (athan_calendar w ++ [row]) w)) as [r w2].
        cbn [fst snd with_athan_calendar athan_calendar env pool requests hijri_calendar] in *.
        split_and!; try done.
        exists (row :: rows). rewrite Htable, <-app_assoc. split_and!; try done.
        * simpl. lia.
        * by constructor.
        * intros Hr. simpl. f_equal. by apply Hok. }
  destruct (Hloop w) as (Henv & Hp & Hreq & Hh & rows & Htable & Hlen & Hids & Hok).
  split_and!; try done; [congruence|].
  exists rows. split_and!; try done.
  intros Hr. split; [done|by apply Hok].
Qed.

(* ================================================================== *)
(** * What the fetch hands on *)
(* ================================================================== *)

Lemma getProp_read (v : value) (k : string) :
  getProp v k = if nullish v then Throw TypeError else Ok (read v k).
Proof. by destruct v. Qed.

Lemma normalise_eq (d : value) :
  PrayerService.normalise d
  = if well_shaped d then Ok (normalised_day d) else Throw TypeError.
Proof.
  unfold PrayerService.normalise, well_shaped, normalised_day.
  rewrite (getProp_read d "date").
  destruct (nullish d) eqn:Hd; [done|]. cbn [mbind result_bind negb andb].
  rewrite (getProp_read (read d "date")).
  destruct (nullish (read d "date")); [done|]. cbn [mbind result_bind negb andb].
  rewrite (getProp_read (read (read d "date") "gregorian")).
  destruct (nullish (read (read d "date") "gregorian")); [done|].
  cbn [mbind result_bind negb andb].
  rewrite (getProp_read d "timings"), Hd. cbn [mbind result_bind].
  rewrite !(getProp_read (read d "timings")).
  by destruct (nullish (read d "timings")).
Qed.

Lemma mapM_normalise (days : list value) :
  mapM PrayerService.normalise days
  = if forallb well_shaped days then Ok (normalised_day <$> days) else Throw TypeError.
Proof.
  induction days as [|d days IH]; [done|].
  cbn [mapM forallb]. rewrite normalise_eq.
  destruct (well_shaped d); [|done]. cbn [mbind result_bind andb]. rewrite IH.
  by destruct (forallb well_shaped days).
Qed.

(** X9.  A fetch is all or nothing.  It issues one request and changes
    nothing else; when the request fails so does the fetch; when one
    returned day lacks [date], [date.gregorian] or [timings] the whole
    fetch fails with a type error; otherwise every returned day is handed
    on, in order, as an object of the Gregorian date and of the six
    timings Fajr, Shurooq (read from Sunrise), Dhuhr, Asr, Maghrib and
    Isha, a timing the upstream left out being handed on as
    [undefined]. *)
Theorem fetchData_all_or_nothing (url : Url) (w : World) :
  PrayerService.fetchData url w
  = (match upstream (env w) url with
     | None => Throw UpstreamCallFailed
     | Some days =>
         if forallb well_shaped days then Ok (normalised_day <$> days)
         else Throw TypeError
     end, log_request url w).
Proof.
  rewrite fetchData_eq. f_equal.
  destruct (upstream (env w) url) as [days|]; [|done].
  apply mapM_normalise.
Qed.

Lemma fetchData_Ok (url : Url) (w : World) (out : list value) :
  (PrayerService.fetchData url w).1 = Ok out →
  ∃ days, upstream (env w) url = Some days ∧ out = normalised_day <$> days.
Proof.
  rewrite fetchData_eq. cbn [fst].
  destruct (upstream (env w) url) as [days|]; [|done].
  rewrite mapM_normalise. destruct (forallb well_shaped days); [|done].
  intros [= <-]. by exists days.
Qed.

Lemma stringify_object (number_to_string : QArith_base.Q → string) (o : object) :
  is_Some (JSON.stringify number_to_string (VObj o)).
Proof. by eexists. Qed.

(** On a day the fetch handed on, a table that takes every row leaves one
    way to fail: a date that is no string. *)
Lemma insert_record_fetched (strategyId cityId : Z) (d : value) (w : World) :
  (∀ table row, athan_calendar_accepts (env w) table row = true) →
  ∃ row, DbService.insert_record strategyId cityId (normalised_day d) () w
         = if string_date (normalised_day d)
           then (Ok (), with_athan_calendar (athan_calendar w ++ [row]) w)
           else (Throw TypeError, w).
Proof.
  intros Haccepts. unfold DbService.insert_record, string_date, normalised_day.
  unfold mbind, M_bind, lift. cbn [getProp get String.eqb Ascii.eqb Bool.eqb].
  destruct (read (read (read d "date") "gregorian") "date") as [| | | |s| |];
    try by exists {| athan_school_id := 0; city_id := 0; date := ""; data := "" |}.
  cbn [as_string]. unfold DbService.stringify.
  destruct (stringify_object (number_to_string (env w))
              [("Fajr", read (read d "timings") "Fajr");
               ("Shurooq", read (read d "timings") "Sunrise");
               ("Dhuhr", read (read d "timings") "Dhuhr");
               ("Asr", read (read d "timings") "Asr");
               ("Maghrib", read (read d "timings") "Maghrib");
               ("Isha", read (read d "timings") "Isha")]) as [blob ->].
  unfold DbService.execute. rewrite Haccepts. by eexists.
Qed.

Lemma insert_loop_fetched (strategyId cityId : Z) (days : list value) (w : World) :
  (∀ table row, athan_calendar_accepts (env w) table row = true) →
  let r := for_each (DbService.insert_record strategyId cityId)
             (normalised_day <$> days) () w in
  r.1 = (if forallb string_date (normalised_day <$> days) then Ok () else Throw TypeError) ∧
  (forallb string_date (normalised_day <$> days) = true →
   List.length (athan_calendar r.2)
   = (List.length (athan_calendar w) + List.length days)%nat).
Proof.
  revert w. induction days as [|d days IH]; intros w Haccepts.
  - simpl. split; [done|]. intros _. lia.
  - rewrite fmap_cons. cbn [for_each forallb]. unfold mbind, M_bind.
    destruct (insert_record_fetched strategyId cityId d w Haccepts) as [row ->].
    destruct (string_date (normalised_day d)); [|done]. cbn [andb].
    destruct (IH (with_athan_calendar (athan_calendar w ++ [row]) w)) as [Hr Hlen];
      [exact Haccepts|].
    cbn zeta in Hr, Hlen.
    destruct (for_each (DbService.insert_record strategyId cityId)
                (normalised_day <$> days) ()
                (with_athan_calendar (athan_calendar w ++ [row]) w)) as [r w2].
    cbn [fst snd with_athan_calendar athan_calendar] in *. split; [done|].
    intros Hall. rewrite (Hlen Hall), length_app. simpl. lia.
Qed.

(** X10.  What a fetch resolves with can always be taken apart and
    serialised by [insertData]: with the pool initialised and a table that
    takes every row, [insertData] succeeds on it exactly when every date
    the upstream gave is a string, and then it appends one row a day;
    otherwise it fails with a type error. *)
Theorem fetch_then_insert (url : Url) (w w' : World) (strategyId cityId : Z)
    (out : list value) :
  (PrayerService.fetchData url w).1 = Ok out →
  pool w' = true →
  (∀ table row, athan_calendar_accepts (env w') table row = true) →
  let run := DbService.insertData strategyId cityId out w' in
  run.1 = (if forallb string_date out then Ok () else Throw TypeError) ∧
  (forallb string_date out = true →
   List.length (athan_calendar run.2)
   = (List.length (athan_calendar w') + List.length out)%nat).
Proof.
  intros (days & _ & ->)%fetchData_Ok Hpool Haccepts run.
  unfold run, DbService.insertData. rewrite Hpool. cbn [negb].
  rewrite length_fmap. by apply insert_loop_fetched.
Qed.

Lemma fetch_then_insert_witness :
  let url := CalendarByCity "Rabat" "Morocco" "3" 7 2024 in
  let out := normalised_day <$> [Sample.prayer_day "01-07-2024" "04:46" "06:28";
                                 Sample.prayer_day "02-07-2024" "04:47" "06:29"] in
  (PrayerService.fetchData url Sample.world).1 = Ok out ∧
  (DbService.insertData 4 9 out Sample.world).1 = Ok () ∧
  date <$> athan_calendar (DbService.insertData 4 9 out Sample.world).2
  = ["2024-07-01"; "2024-07-02"].
Proof.
  intros url out.
  destruct (fetch_then_insert url Sample.world Sample.world 4 9 out) as [Hr _].
  - reflexivity.
  - reflexivity.
  - reflexivity.
  - split; [reflexivity|]. split; [exact Hr|]. by vm_compute.
Defined.

(* ================================================================== *)
(** * What the strategy engine never does *)
(* ================================================================== *)

Lemma fetchData_world (url : Url) (w : World) :
  (PrayerService.fetchData url w).2 = log_request url w.
Proof. by rewrite fetchData_eq. Qed.



(* ================================================================== *)
(** * Integers in decimal *)
(* ================================================================== *)

(** An integer of at most 2^53 in magnitude is its own Number value. *)
Lemma to_double_exact (n : Z) : Z.abs n ≤ 2 ^ 53 → to_double n = of_Z n.
Proof.
  intros Hn. unfold to_double.
  assert (Hround : round_to_53_bits (Z.abs n) = Z.abs n).
  { unfold round_to_53_bits.
    destruct (Z.leb_spec (Z.log2 (Z.abs n) - 52) 0) as [|Hlog]; [done|].
    assert (Z.abs n = 2 ^ 53) as ->; [|by vm_compute].
    assert (2 ^ 53 ≤ Z.abs n); [|lia].
    assert (0 < Z.abs n).
    { destruct (Z.abs n) eqn:Habs; [done|lia|lia]. }
    apply Z.log2_le_pow2; lia. }
  rewrite Hround.
  destruct (Z.leb_spec (2 ^ 1024) (Z.abs n)) as [Hbig|_].
  - assert (2 ^ 53 < 2 ^ 1024) by (by apply Z.pow_lt_mono_r). lia.
  - f_equal. f_equal. lia.
Qed.

Lemma pretty_N_go_app (x : N) (s : string) :
  pretty_N_go x s = pretty_N_go x EmptyString +:+ s.
Proof.
  revert s. induction (N.lt_wf_0 x) as [x _ IH]; intros s.
  assert (x = 0 ∨ 0 < x)%N as [->|Hx] by lia.
  - by rewrite !pretty_N_go_0.
  - rewrite (pretty_N_go_step x s), (pretty_N_go_step x EmptyString) by done.
    assert (Hlt : (x `div` 10 < x)%N) by (by apply N.div_lt).
    rewrite (IH _ Hlt (String (pretty_N_char (x `mod` 10)) s)).
    rewrite (IH _ Hlt (String (pretty_N_char (x `mod` 10)) EmptyString)).
    by rewrite string_app_assoc.
Qed.

(** The decimal text of a positive number: the text of its tenth, then
    its last digit. *)
Lemma pretty_N_go_snoc (x : N) :
  (0 < x)%N →
  pretty_N_go x EmptyString
  = pretty_N_go (x `div` 10) EmptyString
    +:+ String (pretty_N_char (x `mod` 10)) EmptyString.
Proof. intros Hx. rewrite pretty_N_go_step by done. apply pretty_N_go_app. Qed.

Lemma digit_cases (d : N) :
  (d < 10)%N →
  (d = 0 ∨ d = 1 ∨ d = 2 ∨ d = 3 ∨ d = 4 ∨ d = 5 ∨ d = 6 ∨ d = 7 ∨ d = 8 ∨ d = 9)%N.
Proof. lia. Qed.

Lemma digit_value_pretty_N_char (d : N) :
  (d < 10)%N → digit_value (pretty_N_char d) = Some (Z.of_N d).
Proof. intros Hd%digit_cases. by repeat (destruct Hd as [->|Hd]); [..|subst d]. Qed.

Lemma strip_sign_pretty_N_char (d : N) (rest : string) :
  (d < 10)%N →
  strip_sign (trim_start (String (pretty_N_char d) rest))
  = (1, String (pretty_N_char d) rest).
Proof. intros Hd%digit_cases. by repeat (destruct Hd as [->|Hd]); [..|subst d]. Qed.

Lemma pretty_N_go_head (x : N) :
  (0 < x)%N →
  ∃ d rest, (d < 10)%N ∧ pretty_N_go x EmptyString = String (pretty_N_char d) rest.
Proof.
  induction (N.lt_wf_0 x) as [x _ IH]. intros Hx.
  rewrite pretty_N_go_snoc by done.
  destruct (N.eq_0_gt_0_cases (x `div` 10)) as [->|Hdiv].
  - rewrite pretty_N_go_0. exists (x `mod` 10)%N, EmptyString.
    split; [|done]. by apply N.mod_lt.
  - destruct (IH (x `div` 10)%N) as (d & rest & Hd & ->); [by apply N.div_lt|done|].
    by exists d, (rest +:+ String (pretty_N_char (x `mod` 10)) EmptyString).
Qed.

(** Reading the decimal text of a positive number gives the number. *)
Lemma digits_pretty_N_go (x : N) (rest : string) :
  (0 < x)%N →
  digits 10 (pretty_N_go x EmptyString +:+ rest) None = digits 10 rest (Some (Z.of_N x)).
Proof.
  revert rest. induction (N.lt_wf_0 x) as [x _ IH]. intros rest Hx.
  rewrite pretty_N_go_snoc by done. rewrite string_app_assoc.
  change (String (pretty_N_char (x `mod` 10)) EmptyString +:+ rest)
    with (String (pretty_N_char (x `mod` 10)) rest).
  assert (Hmod : (x `mod` 10 < 10)%N) by (by apply N.mod_lt).
  assert (Hdigit : (Z.of_N (x `mod` 10) <? 10) = true) by (apply Z.ltb_lt; lia).
  destruct (N.eq_0_gt_0_cases (x `div` 10)) as [Hdiv|Hdiv].
  - rewrite Hdiv, pretty_N_go_0.
    change (EmptyString +:+ ?s) with s. cbn [digits].
    rewrite digit_value_pretty_N_char, Hdigit by done. cbn [default from_option id].
    do 2 f_equal. pose proof (N.div_mod x 10). lia.
  - rewrite IH by (by try apply N.div_lt). cbn [digits].
    rewrite digit_value_pretty_N_char, Hdigit by done. cbn [default from_option id].
    do 2 f_equal. pose proof (N.div_mod x 10). lia.
Qed.

Lemma string_app_empty (s : string) : s +:+ EmptyString = s.
Proof.
  induction s as [|c s IH]; [done|].
  change (String c s +:+ EmptyString) with (String c (s +:+ EmptyString)).
  by rewrite IH.
Qed.

(** [parseInt(text, 10)] of the decimal text of a natural number up to
    2^53 is the number. *)
Lemma parseInt10_pretty (n : Z) :
  0 ≤ n ≤ 2 ^ 53 → PrayerController.parseInt10 (pretty n) = of_Z n.
Proof.
  intros Hn. destruct n as [|p|p]; [done| |lia].
  unfold pretty, pretty_Z, pretty, pretty_positive, pretty, pretty_N.
  rewrite decide_False by done.
  destruct (pretty_N_go_head (N.pos p)) as (d & rest & Hd & Hhead); [lia|].
  unfold PrayerController.parseInt10.
  rewrite Hhead, strip_sign_pretty_N_char by done. rewrite <-Hhead.
  rewrite <-(string_app_empty (pretty_N_go (N.pos p) EmptyString)).
  rewrite digits_pretty_N_go by lia. cbn [digits].
  apply to_double_exact. lia.
Qed.

(* ================================================================== *)
(** * PrayerController.getByCity *)
(* ================================================================== *)

Lemma getByCity_present (city country : string) (method : option string) (w : World) :
  city ≠ EmptyString → country ≠ EmptyString →
  PrayerController.getByCity (Some city) (Some country) method w
  = (match (PrayerService.getByCity (VStr city) (VStr country)
              (VNum (PrayerController.parseInt10 (default "2" method))) w).1 with
     | Ok calendar => Ok (PrayerController.Days calendar)
     | Throw e => Throw e
     end,
     (PrayerService.getByCity (VStr city) (VStr country)
        (VNum (PrayerController.parseInt10 (default "2" method))) w).2).
Proof.
  intros Hcity Hcountry. unfold PrayerController.getByCity.
  destruct city as [|c0 city]; [done|]. destruct country as [|k0 country]; [done|].
  cbn [PrayerController.missing orb default from_option id]. unfold mbind, M_bind.
  by destruct (PrayerService.getByCity _ _ _ w) as [[calendar|e] w'].
Qed.

(** The By-City strategy is [getByCity] on its three fields whenever the
    duration has a rendering. *)
Lemma City_getPrayerTimes_getByCity (params : object) (w : World) (duration : string) :
  to_string (number_to_string (env w)) (get "duration" params) = Ok duration →
  CityPrayerTimeByAthanStrategy.getPrayerTimes params w
  = PrayerService.getByCity (get "city" params) (get "country" params)
      (get "method" params) w.
Proof.
  intros Hduration. rewrite City_getPrayerTimes_eq, getByCity_eq.
  unfold renderings. cbn [mapM]. rewrite Hduration. by repeat step_render.
Qed.

(** X13.  [getByCity] refuses, with the reply that city and country are
    required, exactly when one of the two is absent or empty; it then
    requests nothing and changes nothing.  Otherwise it issues one request
    to the city endpoint for the current month, with the city and the
    country as given and the text of the method read from the query in
    radix 10.  That method is the Number value of the integer read: the
    integer itself for a decimal text up to 2^53, the nearest double
    beyond (9007199254740993 is requested as 9007199254740992), and 2
    when the query has none. *)
Theorem getByCity_refuses_iff (city country method : option string) (w : World) :
  let run := PrayerController.getByCity city country method w in
  ((∃ message, run.1 = Ok (PrayerController.Refused message))
   ↔ PrayerController.missing city || PrayerController.missing country = true) ∧
  (PrayerController.missing city || PrayerController.missing country = true →
   run = (Ok (PrayerController.Refused "City and country are required"), w)) ∧
  (PrayerController.missing city || PrayerController.missing country = false →
   same_store w run.2 ∧
   ∃ method_text,
     to_string (number_to_string (env w))
       (VNum (PrayerController.parseInt10 (default "2" method))) = Ok method_text ∧
     requests run.2
     = requests w ++
       [CalendarByCity (default "" city) (default "" country) method_text
          (getMonth (today (env w)) + 1) (getFullYear (today (env w)))]) ∧
  (∀ n, 0 ≤ n ≤ 2 ^ 53 → PrayerController.parseInt10 (pretty n) = of_Z n) ∧
  PrayerController.parseInt10 "9007199254740993" = of_Z 9007199254740992 ∧
  PrayerController.parseInt10 (default "2" None) = of_Z 2.
Proof.
  intros run. unfold run. clear run.
  split_and!; [| | |exact parseInt10_pretty|by vm_compute|by vm_compute].
  all: destruct (PrayerController.missing city || PrayerController.missing country)
         eqn:Hmissing.
  all: try (assert (Hrun : PrayerController.getByCity city country method w
                     = (Ok (PrayerController.Refused "City and country are required"), w))
              by (unfold PrayerController.getByCity; by rewrite Hmissing);
            rewrite Hrun).
  - split; [done|]. intros _. by eexists.
  - split; [|done]. intros [message Hm]. exfalso. revert Hm.
    apply orb_false_iff in Hmissing as [Hcity Hcountry].
    destruct city as [[|c0 city]|]; try done.
    destruct country as [[|k0 country]|]; try done.
    rewrite getByCity_present by done.
    by destruct (PrayerService.getByCity _ _ _ w) as [[calendar|e] w'].
  - done.
  - done.
  - done.
  - intros _. apply orb_false_iff in Hmissing as [Hcity Hcountry].
    destruct city as [[|c0 city]|]; try done.
    destruct country as [[|k0 country]|]; try done.
    rewrite getByCity_present by done.
    destruct (to_string_VNum (number_to_string (env w))
                (PrayerController.parseInt10 (default "2" method)))
      as [method_text Hmethod].
    rewrite getByCity_eq. unfold renderings. cbn [mapM].
    rewrite Hmethod.
    cbn [to_string mbind result_bind mret result_ret snd default from_option id].
    rewrite fetchData_world. split; [done|]. by exists method_text.
Qed.

(** X14.  The endpoint and the strategy engine agree: with a city and a
    country given, [getByCity] answers with the calendar, and fails with
    the error, that implicit resolution gives for the request made of the
    city, the country and the method read from the query, and it leaves
    the same world. *)
Theorem getByCity_as_getPrayerTimes (city country : string) (method : option string)
    (w : World) :
  city ≠ EmptyString → country ≠ EmptyString →
  let params := [("city", VStr city); ("country", VStr country);
                 ("method", VNum (PrayerController.parseInt10 (default "2" method)))] in
  let run := PrayerController.getByCity (Some city) (Some country) method w in
  run.1 = match (AthanService.getPrayerTimes params w).1 with
          | Ok calendar => Ok (PrayerController.Days calendar)
          | Throw e => Throw e
          end ∧
  run.2 = (AthanService.getPrayerTimes params w).2.
Proof.
  intros Hcity Hcountry params run. unfold run.
  rewrite (getByCity_present city country method w Hcity Hcountry).
  unfold AthanService.getPrayerTimes. rewrite find_strategy_eq.
  assert (CoordinatesPrayerTimeByAthanStrategy.canHandle params = false) as -> by done.
  cbn [IPrayerTimeStrategy.getPrayerTimes CityPrayerTimeByAthanStrategy.strategy].
  by rewrite (City_getPrayerTimes_getByCity params w "undefined").
Qed.

Lemma getByCity_as_getPrayerTimes_witness :
  (PrayerController.getByCity (Some "Rabat") (Some "Morocco") None Sample.world).2
  = (AthanService.getPrayerTimes
       [("city", VStr "Rabat"); ("country", VStr "Morocco"); ("method", VNum (of_Z 2))]
       Sample.world).2.
Proof.
  destruct (getByCity_as_getPrayerTimes "Rabat" "Morocco" None Sample.world) as [_ Hw].
  - discriminate.
  - discriminate.
  - exact Hw.
Defined.

(* ================================================================== *)
(** * The catalogue of calculation methods *)
(* ================================================================== *)

Lemma with_methods_saved_nil (c : Catalogue.state) : with_methods_saved [] c = c.
Proof. destruct c. unfold with_methods_saved. simpl. by rewrite app_nil_r. Qed.

Lemma with_methods_saved_app (rows rows' : list Catalogue.row) (c : Catalogue.state) :
  with_methods_saved rows' (with_methods_saved rows c) = with_methods_saved (rows ++ rows') c.
Proof. unfold with_methods_saved. simpl. by rewrite app_assoc. Qed.

Lemma label_prefix (label : string) :
  String.prefix "athan-api-" ("athan-api-" +:+ label) = true.
Proof. by destruct label. Qed.

(** One method is skipped, fails and leaves the state as it was, or adds
    one row, whose label starts with the prefix of the strategy names. *)
Lemma save_method_cases (methods : value) (entry : string * value) (c : Catalogue.state) :
  Catalogue.save_method methods entry c = (Catalogue.Resolved (), c) ∨
  (∃ f, Catalogue.save_method methods entry c = (Catalogue.Rejected f, c)) ∨
  (∃ label, Catalogue.save_method methods entry c
            = (Catalogue.Resolved (),
               with_methods_saved
                 [{| Catalogue.name := entry.1;
                     Catalogue.startegy_name := "athan-api-" +:+ label;
                     Catalogue.description := read entry.2 "name" |}] c) ∧
            read entry.2 "name" ≠ VUndefined).
Proof.
  destruct entry as [methodId method].
  unfold Catalogue.save_method, mbind, Catalogue.St_bind, Catalogue.of_result.
  destruct (Catalogue.hasOwnProperty methods) as [own|e] eqn:Hown; [|right; left; by eexists].
  destruct own; [|by left].
  rewrite (getProp_read method "name").
  destruct (nullish method) eqn:Hnull; [right; left; by eexists|].
  rewrite (getProp_read method "id"), Hnull. cbn [fst snd].
  destruct (read method "name") eqn:Hname; try by left.
  all: destruct (to_string _ (read method "id")) as [label|e] eqn:Hlabel;
    [|right; left; by eexists].
  all: unfold Catalogue.execute;
    destruct (Catalogue.athan_school_accepts c (Catalogue.athan_school c) _);
    [right; right; exists label; split; [reflexivity|done]|right; left; by eexists].
Qed.

(** Whatever the catalogue holds, the loop only appends rows whose label
    starts with the prefix of the strategy names and whose description is
    a name that was there. *)
Lemma save_loop_rows (methods : value) (entries : list (string * value))
    (c : Catalogue.state) :
  ∃ rows, (Catalogue.for_keys (Catalogue.save_method methods) entries c).2
          = with_methods_saved rows c ∧
          (List.length rows ≤ List.length entries)%nat ∧
          Forall (λ r, String.prefix "athan-api-" (Catalogue.startegy_name r) = true ∧
                       Catalogue.description r ≠ VUndefined) rows.
Proof.
  revert c. induction entries as [|entry entries IH]; intros c.
  - exists []. by rewrite with_methods_saved_nil.
  - cbn [Catalogue.for_keys]. unfold mbind, Catalogue.St_bind.
    destruct (save_method_cases methods entry c) as [->|[[f ->]|(label & -> & Hname)]].
    + destruct (IH c) as (rows & Hrows & Hlen & Hall).
      exists rows. split_and!; [done|simpl; lia|done].
    + exists []. rewrite with_methods_saved_nil. split_and!; [done|simpl; lia|done].
    + destruct (IH (with_methods_saved
                      [{| Catalogue.name := entry.1;
                          Catalogue.startegy_name := "athan-api-" +:+ label;
                          Catalogue.description := read entry.2 "name" |}] c))
        as (rows & Hrows & Hlen & Hall).
      exists ({| Catalogue.name := entry.1;
                 Catalogue.startegy_name := "athan-api-" +:+ label;
                 Catalogue.description := read entry.2 "name" |} :: rows).
      rewrite Hrows, with_methods_saved_app.
      split_and!; [done|simpl; lia|]. constructor; [|done].
      split; [apply label_prefix|done].
Qed.

Lemma save_eq (c : Catalogue.state) :
  pool (Catalogue.world c) = true →
  Catalogue.savePrayerCalculationMethods (Some Catalogue.getMethods) c
  = match Catalogue.methods c with
    | Some methods =>
        Catalogue.for_keys (Catalogue.save_method methods) (Catalogue.entries methods)
          (with_methods_requested c)
    | None => (Catalogue.Rejected (Catalogue.Raised UpstreamCallFailed),
               with_methods_requested c)
    end.
Proof.
  intros Hpool. unfold Catalogue.savePrayerCalculationMethods. rewrite Hpool. cbn [negb].
  unfold mbind, Catalogue.St_bind, Catalogue.getMethods, with_methods_requested.
  destruct (Catalogue.methods c); reflexivity.
Qed.

(** X15.  Every label [savePrayerCalculationMethods] stores is a strategy
    name [executeStrategyByName] recognises.  Whatever the upstream
    answers and whether the run succeeds or stops, the run only appends
    rows to [athan_school], at most one a key of the catalogue, each with
    a description that is not [undefined] and a label that starts with
    athan-api-; executing such a label never fails with
    [UnknownStrategy].  The other tables, the pool and the log of the
    calendar requests stay as they were, and the methods are requested at
    most once. *)
Theorem savePrayerCalculationMethods_labels (c : Catalogue.state) :
  let run := Catalogue.savePrayerCalculationMethods (Some Catalogue.getMethods) c in
  Catalogue.world run.2 = Catalogue.world c ∧
  (Catalogue.methods_requests run.2 ≤ S (Catalogue.methods_requests c))%nat ∧
  ∃ rows,
    Catalogue.athan_school run.2 = Catalogue.athan_school c ++ rows ∧
    (List.length rows
     ≤ List.length (Catalogue.entries (default VUndefined (Catalogue.methods c))))%nat ∧
    Forall (λ r,
              String.prefix "athan-api-" (Catalogue.startegy_name r) = true ∧
              Catalogue.description r ≠ VUndefined ∧
              ∀ params w,
                outcome (AthanService.executeStrategyByName (Catalogue.startegy_name r)
                           params w) ≠ Throw UnknownStrategy) rows.
Proof.
  intros run. unfold run. clear run.
  destruct (pool (Catalogue.world c)) eqn:Hpool.
  2:{ unfold Catalogue.savePrayerCalculationMethods. rewrite Hpool. cbn [negb snd].
      split_and!; [done|lia|]. exists []. rewrite app_nil_r. split_and!; [done|simpl; lia|done]. }
  rewrite (save_eq c Hpool).
  destruct (Catalogue.methods c) as [methods|] eqn:Hmethods.
  2:{ cbn [snd with_methods_requested Catalogue.world Catalogue.methods_requests
           Catalogue.athan_school].
      split_and!; [done|lia|]. exists []. rewrite app_nil_r. split_and!; [done|simpl; lia|done]. }
  destruct (save_loop_rows methods (Catalogue.entries methods) (with_methods_requested c))
    as (rows & -> & Hlen & Hall).
  cbn [with_methods_saved with_methods_requested Catalogue.world Catalogue.methods_requests
       Catalogue.athan_school default from_option id].
  split_and!; [done|lia|]. exists rows. split_and!; [done|done|].
  eapply Forall_impl; [exact Hall|]. intros r [Hprefix Hdescription].
  split_and!; [done|done|]. intros params w.
  rewrite executeStrategyByName_recognised by by apply (prefix_toLowerCase "athan-api-").
  unfold outcome. cbn [fst]. intros He.
  by destruct (City_getPrayerTimes_throw _ _ _ He).
Qed.

(** When the catalogue is as [ms] describes it and the table takes every
    row, the loop stores the row of every method that has a name, in
    order. *)
Lemma save_loop_ok (methods : value) (entries : list (string * value)) (ms : list Method)
    (c : Catalogue.state) :
  Catalogue.hasOwnProperty methods = Ok true →
  Forall2 describes entries ms →
  (∀ table r, Catalogue.athan_school_accepts c table r = true) →
  Catalogue.for_keys (Catalogue.save_method methods) entries c
  = (Catalogue.Resolved (),
     with_methods_saved
       (omap (method_row (number_to_string (env (Catalogue.world c)))) ms) c).
Proof.
  intros Hown Hentries. revert c.
  induction Hentries as [|[methodId method] m entries ms (Hkey & Hid & Hname) _ IH];
    intros c Haccepts.
  - simpl. by rewrite with_methods_saved_nil.
  - cbn [Catalogue.for_keys]. unfold mbind, Catalogue.St_bind.
    assert (Hstep : Catalogue.save_method methods (methodId, method) c
              = (Catalogue.Resolved (),
                 with_methods_saved
                   (option_list (method_row (number_to_string (env (Catalogue.world c))) m))
                   c)).
    { unfold Catalogue.save_method, mbind, Catalogue.St_bind, Catalogue.of_result.
      cbn [fst snd] in *. rewrite Hown, Hname, Hid. unfold method_row.
      destruct (method_name m) as [n|]; cbn [from_option fmap option_fmap option_map option_list].
      - cbn [to_string of_Z]. unfold Catalogue.execute. rewrite Haccepts.
        by rewrite Hkey.
      - by rewrite with_methods_saved_nil. }
    rewrite Hstep, IH by exact Haccepts.
    rewrite with_methods_saved_app. do 2 f_equal.
    cbn [omap list_omap with_methods_saved Catalogue.world].
    by destruct (method_row _ m).
Qed.

Lemma save_ok (methods : value) (ms : list Method) (c : Catalogue.state) :
  pool (Catalogue.world c) = true →
  Catalogue.methods c = Some methods →
  Catalogue.hasOwnProperty methods = Ok true →
  Forall2 describes (Catalogue.entries methods) ms →
  (∀ table r, Catalogue.athan_school_accepts c table r = true) →
  Catalogue.savePrayerCalculationMethods (Some Catalogue.getMethods) c
  = (Catalogue.Resolved (),
     with_methods_saved
       (omap (method_row (number_to_string (env (Catalogue.world c)))) ms)
       (with_methods_requested c)).
Proof.
  intros Hpool Hmethods Hown Hentries Haccepts.
  rewrite (save_eq c Hpool), Hmethods.
  by rewrite (save_loop_ok methods _ ms (with_methods_requested c) Hown Hentries).
Qed.

(** X16.  With the pool initialised, a catalogue whose methods carry a
    numeric [id] and a table that takes every row,
    [savePrayerCalculationMethods] requests the methods once and stores,
    in the order of the catalogue, one row for every method that has a
    name: the key of the method, the label made of athan-api- and the
    [id], and the name.  A method without a name is skipped. *)
Theorem savePrayerCalculationMethods_rows (methods : value) (ms : list Method)
    (c : Catalogue.state) :
  pool (Catalogue.world c) = true →
  Catalogue.methods c = Some methods →
  Catalogue.hasOwnProperty methods = Ok true →
  Forall2 describes (Catalogue.entries methods) ms →
  (∀ table r, Catalogue.athan_school_accepts c table r = true) →
  let run := Catalogue.savePrayerCalculationMethods (Some Catalogue.getMethods) c in
  let rows := omap (method_row (number_to_string (env (Catalogue.world c)))) ms in
  run.1 = Catalogue.Resolved () ∧
  Catalogue.athan_school run.2 = Catalogue.athan_school c ++ rows ∧
  Catalogue.methods_requests run.2 = S (Catalogue.methods_requests c) ∧
  List.length rows = List.length (filter (λ m, is_Some (method_name m)) ms).
Proof.
  intros Hpool Hmethods Hown Hentries Haccepts run rows. unfold run.
  rewrite (save_ok methods ms c Hpool Hmethods Hown Hentries Haccepts).
  cbn [fst snd with_methods_saved with_methods_requested Catalogue.athan_school
       Catalogue.methods_requests].
  split_and!; try done.
  - unfold rows. clear. induction ms as [|m ms IH]; [done|].
    cbn [omap list_omap]. rewrite filter_cons. unfold method_row at 1.
    destruct (method_name m) as [n|]; cbn [fmap option_fmap option_map].
    + rewrite decide_True by eauto. simpl. by rewrite IH.
    + rewrite decide_False by (by intros [? ?]). exact IH.
Qed.

Lemma savePrayerCalculationMethods_rows_witness :
  Catalogue.athan_school
    (Catalogue.savePrayerCalculationMethods (Some Catalogue.getMethods) Scenario.registry).2
  = [{| Catalogue.name := "MWL"; Catalogue.startegy_name := "athan-api-3";
        Catalogue.description := VStr "Muslim World League" |};
     {| Catalogue.name := "MOROCCO"; Catalogue.startegy_name := "athan-api-21";
        Catalogue.description := VStr "Morocco" |}].
Proof.
  destruct (savePrayerCalculationMethods_rows Scenario.catalogue
              [{| method_key := "MWL"; method_id := 3;
                  method_name := Some "Muslim World League" |};
               {| method_key := "CUSTOM"; method_id := 99; method_name := None |};
               {| method_key := "MOROCCO"; method_id := 21; method_name := Some "Morocco" |}]
              Scenario.registry) as (_ & Hrows & _).
  - reflexivity.
  - reflexivity.
  - reflexivity.
  - repeat constructor.
  - reflexivity.
  - rewrite Hrows. by vm_compute.
Defined.

(** X17.  [savePrayerCalculationMethods] is not an upsert: its statement
    has no clause for a duplicate, so under the conditions of a
    successful run a second run requests the methods again and stores
    every named method a second time, after the rows of the first. *)
Theorem savePrayerCalculationMethods_twice (methods : value) (ms : list Method)
    (c : Catalogue.state) :
  pool (Catalogue.world c) = true →
  Catalogue.methods c = Some methods →
  Catalogue.hasOwnProperty methods = Ok true →
  Forall2 describes (Catalogue.entries methods) ms →
  (∀ table r, Catalogue.athan_school_accepts c table r = true) →
  let run1 := Catalogue.savePrayerCalculationMethods (Some Catalogue.getMethods) c in
  let run2 := Catalogue.savePrayerCalculationMethods (Some Catalogue.getMethods) run1.2 in
  let rows := omap (method_row (number_to_string (env (Catalogue.world c)))) ms in
  run2.1 = Catalogue.Resolved () ∧
  Catalogue.athan_school run2.2 = Catalogue.athan_school c ++ rows ++ rows ∧
  Catalogue.methods_requests run2.2 = S (S (Catalogue.methods_requests c)).
Proof.
  intros Hpool Hmethods Hown Hentries Haccepts run1 run2 rows. unfold run2, run1.
  rewrite (save_ok methods ms c Hpool Hmethods Hown Hentries Haccepts). cbn [snd].
  rewrite (save_ok methods ms (with_methods_saved _ (with_methods_requested c)))
    by done.
  cbn [fst snd with_methods_saved with_methods_requested Catalogue.athan_school
       Catalogue.methods_requests Catalogue.world].
  by rewrite <-app_assoc.
Qed.

Lemma savePrayerCalculationMethods_twice_witness :
  Catalogue.name <$>
    Catalogue.athan_school
      (Catalogue.savePrayerCalculationMethods (Some Catalogue.getMethods)
         (Catalogue.savePrayerCalculationMethods (Some Catalogue.getMethods)
            Scenario.registry).2).2
  = ["MWL"; "MOROCCO"; "MWL"; "MOROCCO"].
Proof.
  destruct (savePrayerCalculationMethods_twice Scenario.catalogue
              [{| method_key := "MWL"; method_id := 3;
                  method_name := Some "Muslim World League" |};
               {| method_key := "CUSTOM"; method_id := 99; method_name := None |};
               {| method_key := "MOROCCO"; method_id := 21; method_name := Some "Morocco" |}]
              Scenario.registry) as (_ & Hrows & _).
  - reflexivity.
  - reflexivity.
  - reflexivity.
  - repeat constructor.
  - reflexivity.
  - rewrite Hrows. by vm_compute.
Defined.

(** X18.  [initMethods] never rejects: it answers with the message of
    success exactly when [savePrayerCalculationMethods] resolved, and
    with the error it caught otherwise.  Before the pool is initialised
    the error is that of the missing pool and the methods are not even
    requested; when the request for the methods fails the error is that
    of the upstream call and no row is stored. *)
Theorem initMethods_never_rejects (c : Catalogue.state) :
  let run := Catalogue.initMethods c in
  let save := Catalogue.savePrayerCalculationMethods (Some Catalogue.getMethods) c in
  (∃ reply, run.1 = Catalogue.Resolved reply) ∧
  run.2 = save.2 ∧
  (run.1 = Catalogue.Resolved Catalogue.Initialised ↔ save.1 = Catalogue.Resolved ()) ∧
  (pool (Catalogue.world c) = false →
   run = (Catalogue.Resolved (Catalogue.Failed (Catalogue.Raised StorageUnavailable)), c)) ∧
  (pool (Catalogue.world c) = true → Catalogue.methods c = None →
   run = (Catalogue.Resolved (Catalogue.Failed (Catalogue.Raised UpstreamCallFailed)),
          with_methods_requested c)).
Proof.
  intros run save. unfold run, save, Catalogue.initMethods. clear run save.
  split_and!.
  - destruct (Catalogue.savePrayerCalculationMethods _ c) as [[[]|f] c']; by eexists.
  - by destruct (Catalogue.savePrayerCalculationMethods _ c) as [[[]|f] c'].
  - destruct (Catalogue.savePrayerCalculationMethods _ c) as [[[]|f] c']; by split.
  - intros Hpool. unfold Catalogue.savePrayerCalculationMethods. by rewrite Hpool.
  - intros Hpool Hmethods. by rewrite (save_eq c Hpool), Hmethods.
Qed.

(* ================================================================== *)
(** * Stored labels and the method they select *)
(* ================================================================== *)

(** A natural number printed in decimal ends in its last digit. *)
Lemma pretty_last_digit (n : Z) :
  0 ≤ n →
  ∃ front, pretty n = front +:+ String (pretty_N_char (Z.to_N (n mod 10))) EmptyString.
Proof.
  intros Hn. destruct n as [|p|p]; [by exists EmptyString| |lia].
  unfold pretty, pretty_Z, pretty, pretty_positive, pretty, pretty_N.
  rewrite decide_False by done. rewrite pretty_N_go_step by lia.
  rewrite pretty_N_go_app. eexists. do 3 f_equal.
  rewrite Z2N.inj_mod by lia. done.
Qed.

Lemma parseInt_digit (d : Z) :
  0 ≤ d < 10 → parseInt (String (pretty_N_char (Z.to_N d)) EmptyString) = of_Z d.
Proof.
  intros Hd.
  assert (d = 0 ∨ d = 1 ∨ d = 2 ∨ d = 3 ∨ d = 4 ∨ d = 5 ∨ d = 6 ∨ d = 7 ∨ d = 8 ∨ d = 9)
    as Hcases by lia.
  by repeat (destruct Hcases as [->|Hcases]); [..|subst d].
Qed.

(** X19.  The label stored for a method selects the method of its last
    digit.  When the [id] of a method is rendered in decimal, executing
    the label [savePrayerCalculationMethods] stores for it sets [method]
    to the [id] modulo 10: the method that is executed is the method that
    was stored exactly when its [id] is below 10. *)
Theorem stored_label_selects_last_digit (number_to_string : QArith_base.Q → string)
    (m : Method) (r : Catalogue.row) (params : object) (w : World) :
  0 ≤ method_id m →
  number_to_string (QArith_base.inject_Z (method_id m)) = pretty (method_id m) →
  method_row number_to_string m = Some r →
  let run := AthanService.executeStrategyByName (Catalogue.startegy_name r) params w in
  get "method" (params_after run) = VNum (of_Z (method_id m mod 10)) ∧
  (get "method" (params_after run) = VNum (of_Z (method_id m)) ↔ method_id m < 10).
Proof.
  intros Hid Hdecimal Hrow run.
  assert (Hmethod : get "method" (params_after run) = VNum (of_Z (method_id m mod 10))).
  { unfold run, method_row in *. destruct (method_name m) as [n|]; [|done].
    injection Hrow as <-. cbn [Catalogue.startegy_name]. rewrite Hdecimal.
    destruct (pretty_last_digit (method_id m) Hid) as [front ->].
    rewrite executeStrategyByName_recognised
      by (apply (prefix_toLowerCase "athan-api-"), label_prefix).
    unfold params_after. cbn [fst snd]. rewrite get_assign.
    rewrite <-string_app_assoc, (charAt_last ("athan-api-" +:+ front)).
    rewrite parseInt_digit; [done|]. apply Z.mod_pos_bound. lia. }
  split; [done|]. rewrite Hmethod. split.
  - intros [= Hmod]. apply Z.mod_small_iff in Hmod; lia.
  - intros Hsmall. by rewrite Z.mod_small by lia.
Qed.

Lemma stored_label_selects_last_digit_witness :
  get "method"
    (params_after (AthanService.executeStrategyByName "athan-api-21" Sample.by_city
                     Sample.world))
  = VNum (of_Z 1).
Proof.
  destruct (stored_label_selects_last_digit Sample.decimal
              {| method_key := "MOROCCO"; method_id := 21; method_name := Some "Morocco" |}
              {| Catalogue.name := "MOROCCO"; Catalogue.startegy_name := "athan-api-21";
                 Catalogue.description := VStr "Morocco" |}
              Sample.by_city Sample.world) as [Hmethod _].
  - simpl. lia.
  - by vm_compute.
  - by vm_compute.
  - exact Hmethod.
Defined.
